(** * Gaze pipeline: identifier classifier, nearest-timestamp locator,
      event aligner, gaze file loader, event files and sample report

    A shallow embedding of [Gaze/GazeDataLoader.py] and of
    [Gaze/DataWrangling_Dataviewer.py].

    Conventions of the embedding.
    - Numbers read from the CSV files (timestamps, durations, pupil sizes,
      velocities) are the exact rational values of the cells, in [Q].
      Comparison is exact; [nan] is represented separately where the code
      creates it (the [event] and [pupil_size] columns).
    - A Python exception is a value of [exn]; a computation that may raise
      has type [result A].
    - A pandas table is a list of rows, each carrying its index label; the
      row records hold the columns the code reads and the remaining columns
      as an uninterpreted payload. *)

From Equations Require Import Equations.
From Stdlib Require Import String Ascii.
From Stdlib Require Import Bool Arith ZArith QArith Qabs Lia Lqa List.
From Stdlib Require Import Permutation Sorted.
Import ListNotations.

Set Implicit Arguments.
Local Open Scope nat_scope.

(** ** Exceptions *)

Inductive exn : Type :=
| IndexError      (* indexing an array out of bounds *)
| ValueError_no_objects   (* pd.concat([]): "No objects to concatenate" *)
| ValueError_ambiguous    (* bool(Series): "The truth value of a Series is ambiguous" *)
| ValueError_int_literal  (* int(s): "invalid literal for int() with base 10" *)
| KeyError        (* a column name the table does not have *)
| ReadError.      (* pd.read_csv on an unreadable file *)

Inductive result (A : Type) : Type :=
| Ok (a : A)
| Raise (e : exn).
Arguments Ok {A} a.
Arguments Raise {A} e.

Definition bind {A B} (c : result A) (k : A -> result B) : result B :=
  match c with
  | Ok a => k a
  | Raise e => Raise e
  end.

Declare Scope result_scope.
Delimit Scope result_scope with result.
Notation "x <- c ;; k" := (bind c (fun x => k))
  (at level 61, c at next level, right associativity) : result_scope.
Notation "' pat <- c ;; k" := (bind c (fun x => match x with pat => k end))
  (at level 61, pat pattern, c at next level, right associativity) : result_scope.

Definition is_ok {A} (c : result A) : bool :=
  match c with Ok _ => true | Raise _ => false end.

(** Running [f] over a sequence in order, as [df.apply(f, axis=1)] and a
    list comprehension do: the first exception ends the whole evaluation. *)
Fixpoint for_each {A B} (f : A -> result B) (xs : list A) : result (list B) :=
  match xs with
  | [] => Ok []
  | x :: rest =>
      (b <- f x ;; bs <- for_each f rest ;; Ok (b :: bs))%result
  end.

(** ** Exact comparison of cell values *)

Definition Qltb (x y : Q) : bool := negb (Qle_bool y x).

(** ** The nearest-timestamp locator *)

Module Locator.

(** [arr[i]] for an index the caller has checked to be in bounds. *)
Definition at_ (arr : list Q) (i : nat) : Q := nth i arr 0%Q.

(** [array[i]] as Python evaluates it for [0 <= i]: out of bounds raises. *)
Definition getitem (arr : list Q) (i : nat) : result Q :=
  match nth_error arr i with
  | Some x => Ok x
  | None => Raise IndexError
  end.

(** The loop of [np.searchsorted(arr, v, side="left")]:
    [while lo < hi: mid = lo + (hi - lo) // 2;
                    if arr[mid] < v: lo = mid + 1 else: hi = mid]. *)
Equations? binsearch_left (arr : list Q) (v : Q) (lo hi : nat) : nat
  by wf (hi - lo) lt :=
  binsearch_left arr v lo hi with lt_dec lo hi => {
    | left _ with Qltb (at_ arr (lo + (hi - lo) / 2)) v => {
        | true := binsearch_left arr v (S (lo + (hi - lo) / 2)) hi;
        | false := binsearch_left arr v lo (lo + (hi - lo) / 2) };
    | right _ := lo }.
Proof.
  all: assert (H2 : (hi - lo) / 2 < hi - lo) by (apply Nat.div_lt; lia).
  all: simpl in *; lia.
Qed.

Definition searchsorted_left (arr : list Q) (v : Q) : nat :=
  binsearch_left arr v 0 (length arr).

(** [GazeDataLoader.find_nearest]. *)
Definition find_nearest (arr : list Q) (value : Q) : result (Q * nat) :=
  let idx := searchsorted_left arr value in
  if (0 <? idx) &&
     ((idx =? length arr)
      || Qltb (Qabs (value - at_ arr (idx - 1))) (Qabs (value - at_ arr idx)))
  then (x <- getitem arr (idx - 1) ;; Ok (x, idx - 1))%result
  else (x <- getitem arr idx ;; Ok (x, idx))%result.

End Locator.

(** ** The identifier classifier ([DataWrangling.parse_identifier])

    A Python [str] is modelled by a [string] whose characters are the code
    points U+0000 to U+00FF. *)

Module Classifier.
Local Open Scope string_scope.
Local Open Scope nat_scope.

(** [pat in s] for two strings. *)
Fixpoint contains (pat s : string) : bool :=
  String.prefix pat s ||
  match s with
  | EmptyString => false
  | String _ t => contains pat t
  end.

(** [x in xs] for a list of strings. *)
Definition in_list (x : string) (xs : list string) : bool :=
  existsb (String.eqb x) xs.

(** [str.lower] on one character: A-Z, and the capital letters U+00C0 to
    U+00DE other than the multiplication sign, move up by 32. *)
Definition lower_char (c : ascii) : ascii :=
  let n := nat_of_ascii c in
  if ((65 <=? n) && (n <=? 90))
     || ((192 <=? n) && (n <=? 222) && negb (n =? 215))
  then ascii_of_nat (n + 32)
  else c.

Fixpoint lower (s : string) : string :=
  match s with
  | EmptyString => EmptyString
  | String c t => String (lower_char c) (lower t)
  end.

(** [str.isdigit] on one character: the decimal digits and the characters
    of numeric type Digit, which below U+0100 are the superscripts two,
    three and one (U+00B2, U+00B3, U+00B9). *)
Definition isdigit (c : ascii) : bool :=
  let n := nat_of_ascii c in
  ((48 <=? n) && (n <=? 57)) || (n =? 178) || (n =? 179) || (n =? 185).

(** [int(c)] on one character: only a decimal digit is a literal. *)
Definition int_of_char (c : ascii) : result Z :=
  let n := nat_of_ascii c in
  if (48 <=? n) && (n <=? 57) then Ok (Z.of_nat (n - 48))
  else Raise ValueError_int_literal.

(** The slices [s[0:k]] and [s[-k:]]. *)
Definition first_chars (k : nat) (s : string) : string := substring 0 k s.
Definition last_chars (k : nat) (s : string) : string :=
  substring (String.length s - k) k s.

(** A row of the raw report, and the row with its derived columns. *)
Record raw_row := {
  RECORDING_SESSION_LABEL : string;
  identifier : string }.

(** [PageNum] is an integer or the empty string. *)
Inductive pagenum := PageInt (p : Z) | PageEmpty.

Record classified := {
  raw : raw_row;
  ParticipantID : string;
  FilePart : string;
  PartNo : string;
  TrialType : string;
  Text : string;
  Stage : string;
  PageNum : pagenum }.

Definition trialtype_conditions (participant id : string) : string :=
  if contains "Sham" id then "sham"
  else if contains "Practice" id then "Prac"
  else if contains "MW" id then "MW"
  else if contains "SVT" id then "SVT"
  else if contains "Inf" id then "Inference"
  else if contains "Rote" id then "Rote"
  else if contains "Deep" id then "Deep"
  else if contains "DriftCorrect" id then "DriftCorrect"
  else if contains "Recal" id then "Recal"
  else if contains "BIGBREAK" id then "Break"
  else if contains "Resting" id then "restingState"
  else if contains "Localizer" id then "Localizer"
  else if contains "IBI began" id then "Localizer"
  else if contains "Lang Task" id then "Localizer"
  else if contains "UNDEFINED" id then "UNDEFINED"
  else if contains "EML1_001" participant && contains "sham" (lower id) then "NA"
  else if contains "ShamStart" id then "NA"
  else "reading".

Definition text_conditions (id : string) : string :=
  if contains "Validity" id then "Validity"
  else if contains "Bias" id then "Bias"
  else if contains "CausalClaims" id then "CausalClaims"
  else if contains "Variables" id then "Variables"
  else if contains "Hypotheses" id then "Hypotheses"
  else "NA".

Definition stage_conditions (id : string) : string :=
  if contains "Z_Question" id then "Y"
  else if contains "Y_Question" id then "Z"
  else "X".

(** [for s in row.identifier: if s.isdigit(): ...; return ""]. *)
Fixpoint pagenum_conditions (trialtype id : string) : result pagenum :=
  match id with
  | EmptyString => Ok PageEmpty
  | String s t =>
      if isdigit s then
        (p <- int_of_char s ;;
         Ok (PageInt (if in_list trialtype ["reading"; "sham"; "prac"]
                      then p + 1 else p)%Z))%result
      else pagenum_conditions trialtype t
  end.

(** The derived columns of one row, in the order the code computes them. *)
Definition classify (r : raw_row) : result classified :=
  let participant := first_chars 8 (RECORDING_SESSION_LABEL r) in
  let filepart := last_chars 5 (RECORDING_SESSION_LABEL r) in
  let partno := last_chars 1 (RECORDING_SESSION_LABEL r) in
  let trialtype := trialtype_conditions participant (identifier r) in
  let text := text_conditions (identifier r) in
  let stage := stage_conditions (identifier r) in
  (page <- pagenum_conditions trialtype (identifier r) ;;
   Ok {| raw := r; ParticipantID := participant; FilePart := filepart;
         PartNo := partno; TrialType := trialtype; Text := text;
         Stage := stage; PageNum := page |})%result.

(** [parse_identifier] on a frame that has rows.  Every derived column is
    a function of the row alone and only [pagenum_conditions] can raise, so
    computing the columns row by row gives the frame the code returns. *)
Definition parse_identifier (df : list raw_row) : result (list classified) :=
  for_each classify df.

End Classifier.

(** ** Cells and frames *)

(** A cell of a table read from CSV: a number, a string, or [nan]. *)
Inductive cell := Num (q : Q) | Str (s : string) | NaN.

Definition isna (c : cell) : bool :=
  match c with NaN => true | _ => false end.

(** Equality of cells as [drop_duplicates] sees it: numbers by value,
    [nan] equal to [nan]. *)
Definition cell_eqb (a b : cell) : bool :=
  match a, b with
  | Num x, Num y => Qeq_bool x y
  | Str s, Str t => String.eqb s t
  | NaN, NaN => true
  | _, _ => false
  end.

Fixpoint cells_eqb (a b : list cell) : bool :=
  match a, b with
  | [], [] => true
  | x :: a', y :: b' => cell_eqb x y && cells_eqb a' b'
  | _, _ => false
  end.

Module Frame.

(** A table: its rows in order, each with its index label. *)
Definition frame (A : Type) := list (Z * A).

Definition labels {A} (t : frame A) : list Z := map fst t.
Definition rows {A} (t : frame A) : list A := map snd t.

(** The labels [0, 1, ..., n-1] of a [RangeIndex]. *)
Definition range_index (n : nat) : list Z := map Z.of_nat (seq 0 n).

(** A table over fresh labels, as [ignore_index=True] builds it. *)
Definition of_rows {A} (rs : list A) : frame A :=
  combine (range_index (length rs)) rs.

(** [t.reset_index(drop=True)]. *)
Definition reset_index {A} (t : frame A) : frame A := of_rows (rows t).

(** [t[mask]] for a mask computed row by row: the rows kept hold on to
    their labels. *)
Definition select {A} (keep : A -> bool) (t : frame A) : frame A :=
  filter (fun r => keep (snd r)) t.

(** The labels of [t] go up.  A label slice [t.loc[a:b]] of such a table is
    the rows whose label lies in the closed interval from [a] to [b]. *)
Definition index_increasing {A} (t : frame A) : Prop :=
  StronglySorted Z.lt (labels t).

End Frame.

(** ** The event aligner ([GazeDataLoader.parse_events]) *)

Module Aligner.
Import Frame Locator.

(** A row of the event table. *)
Record event_row := {
  eye_sample : Q;
  duration_sec : Q;
  EVENT : cell }.

(** A row of the data table: its time window and its other columns. *)
Record window := {
  tStart : Q;
  tEnd : Q;
  other : list cell }.

(** The row once the table has its [event] column. *)
Record tagged := {
  win : window;
  event : cell }.

(** [data['event'] = np.nan]. *)
Definition add_event_column (data : frame window) : frame tagged :=
  map (fun r => (fst r, {| win := snd r; event := NaN |})) data.

(** [data.loc[a:b, 'event'] = v], on a table whose labels go up. *)
Definition loc_set_event (data : frame tagged) (a b : Z) (v : cell)
  : frame tagged :=
  map (fun r =>
         if (a <=? fst r)%Z && (fst r <=? b)%Z
         then (fst r, {| win := win (snd r); event := v |})
         else r) data.

(** [data['tStart'].values] and [data['tEnd'].values]. *)
Definition tStart_values (data : frame tagged) : list Q :=
  map (fun r => tStart (win (snd r))) data.
Definition tEnd_values (data : frame tagged) : list Q :=
  map (fun r => tEnd (win (snd r))) data.

(** The body of the loop for one event. *)
Definition tag_event (data : frame tagged) (e : event_row)
  : result (frame tagged) :=
  ('(start_time, start_idx) <- find_nearest (tStart_values data) (eye_sample e) ;;
   '(end_time, end_idx) <-
      find_nearest (tEnd_values data) (start_time + duration_sec e * 1000)%Q ;;
   Ok (loc_set_event data (Z.of_nat start_idx + 1) (Z.of_nat end_idx) (EVENT e))
  )%result.

(** The loop over [events.iterrows()].  The table is the caller's object:
    the first component is its contents when the loop stops, be it at the
    end or at an exception. *)
Fixpoint tag_events (data : frame tagged) (events : list event_row)
  : frame tagged * result unit :=
  match events with
  | [] => (data, Ok tt)
  | e :: rest =>
      match tag_event data e with
      | Ok data' => tag_events data' rest
      | Raise x => (data, Raise x)
      end
  end.

(** [data.dropna(subset=['event'])] builds a new table. *)
Definition dropna_event (data : frame tagged) : frame tagged :=
  select (fun r => negb (isna (event r))) data.

(** [parse_events(events, data)]: the caller's table after the call, and
    what the call returns or raises. *)
Definition parse_events (events : list event_row) (data : frame window)
  : frame tagged * result (frame tagged) :=
  let (data', r) := tag_events (add_event_column data) events in
  (data',
   match r with
   | Ok _ => Ok (reset_index (dropna_event data'))
   | Raise x => Raise x
   end).

(** [parse_blinks] and [parse_sample_data] are [parse_events]. *)
Definition parse_blinks := parse_events.
Definition parse_sample_data := parse_events.

End Aligner.

(** ** The default sort of numpy

    [DataFrame.sort_values] with its default [kind='quicksort'] orders the
    rows by [numpy.argsort] of the key column.  The routine below follows
    numpy's generic indirect quicksort (npysort, [aquicksort]): a
    median-of-three partition while the range holds more than 17 entries,
    insertion sort on the short ranges, heapsort once the depth budget of a
    range taken from the stack is used up.  The sort is not stable. *)

Module Numpy.

Section Argsort.

(** The keys [v], and the array [tosort] of positions being permuted. *)
Variable v : list Q.

Definition key (i : nat) : Q := nth i v 0%Q.
Definition less (a b : Q) : bool := Qltb a b.

Definition get (ts : list nat) (p : nat) : nat := nth p ts 0.

Fixpoint set (ts : list nat) (p x : nat) : list nat :=
  match ts, p with
  | [], _ => []
  | _ :: t, 0 => x :: t
  | y :: t, S p' => y :: set t p' x
  end.

(** [INTP_SWAP(ts[p], ts[q])]. *)
Definition swap (ts : list nat) (p q : nat) : list nat :=
  let a := get ts p in
  let b := get ts q in
  set (set ts p b) q a.

(** *** Insertion sort of the range [pl..pr] *)

(** [while (pj > pl && less(vp, v[*pk])) { *pj-- = *pk--; }], with
    [pk = pj - 1]; returns the array and the final [pj]. *)
Fixpoint shift_right (ts : list nat) (pl : nat) (vp : Q) (pj : nat)
  : list nat * nat :=
  match pj with
  | 0 => (ts, 0)
  | S pk =>
      if (pl <? pj) && less vp (key (get ts pk))
      then shift_right (set ts pj (get ts pk)) pl vp pk
      else (ts, pj)
  end.

Definition insert_at (pl : nat) (ts : list nat) (pi : nat) : list nat :=
  let vi := get ts pi in
  let (ts', pj) := shift_right ts pl (key vi) pi in
  set ts' pj vi.

(** [for (pi = pl + 1; pi <= pr; ++pi)]. *)
Definition insertion_sort (ts : list nat) (pl pr : nat) : list nat :=
  fold_left (insert_at pl) (seq (S pl) (pr - pl)) ts.

(** *** Partition of the range [pl..pr] *)

(** [do { ++pi; } while (less(v[*pi], vp));] *)
Fixpoint scan_up (fuel : nat) (ts : list nat) (vp : Q) (pi : nat) : nat :=
  match fuel with
  | 0 => S pi
  | S f =>
      if less (key (get ts (S pi))) vp then scan_up f ts vp (S pi) else S pi
  end.

(** [do { --pj; } while (less(vp, v[*pj]));] *)
Fixpoint scan_down (fuel : nat) (ts : list nat) (vp : Q) (pj : nat) : nat :=
  match fuel with
  | 0 => pj - 1
  | S f =>
      if less vp (key (get ts (pj - 1))) then scan_down f ts vp (pj - 1)
      else pj - 1
  end.

(** [for (;;) { scan up; scan down; if (pi >= pj) break; swap; }];
    returns the array and the final [pi]. *)
Fixpoint partition_loop (fuel : nat) (ts : list nat) (vp : Q) (pi pj : nat)
  : list nat * nat :=
  match fuel with
  | 0 => (ts, pi)
  | S f =>
      let pi' := scan_up (length ts) ts vp pi in
      let pj' := scan_down (length ts) ts vp pj in
      if pj' <=? pi' then (ts, pi')
      else partition_loop f (swap ts pi' pj') vp pi' pj'
  end.

Definition partition (ts : list nat) (pl pr : nat) : list nat * nat :=
  let pm := pl + (pr - pl) / 2 in
  let ts := if less (key (get ts pm)) (key (get ts pl)) then swap ts pm pl else ts in
  let ts := if less (key (get ts pr)) (key (get ts pm)) then swap ts pr pm else ts in
  let ts := if less (key (get ts pm)) (key (get ts pl)) then swap ts pm pl else ts in
  let vp := key (get ts pm) in
  let ts := swap ts pm (pr - 1) in
  let (ts, pi) := partition_loop (length ts) ts vp pl (pr - 1) in
  (swap ts pi (pr - 1), pi).

(** *** Heapsort of the [n] entries from [pl] on

    The C code indexes the range from one: [a = tosort - 1]. *)

Definition geta (ts : list nat) (pl k : nat) : nat := get ts (pl + k - 1).
Definition seta (ts : list nat) (pl k x : nat) : list nat := set ts (pl + k - 1) x.

(** [for (i, j; j <= n;) { if (j < n && less(v[a[j]], v[a[j+1]])) j += 1;
      if (less(v[tmp], v[a[j]])) { a[i] = a[j]; i = j; j += j; } else break; }
    a[i] = tmp;] *)
Fixpoint sift (fuel : nat) (ts : list nat) (pl n tmp i j : nat) : list nat :=
  match fuel with
  | 0 => seta ts pl i tmp
  | S f =>
      if j <=? n then
        let j' := if (j <? n) && less (key (geta ts pl j)) (key (geta ts pl (j + 1)))
                  then j + 1 else j in
        if less (key tmp) (key (geta ts pl j'))
        then sift f (seta ts pl i (geta ts pl j')) pl n tmp j' (j' + j')
        else seta ts pl i tmp
      else seta ts pl i tmp
  end.

Definition heapsort (ts : list nat) (pl pr : nat) : list nat :=
  let n := pr - pl + 1 in
  (* for (l = n >> 1; l > 0; --l) *)
  let ts := fold_left (fun ts l => sift n ts pl n (geta ts pl l) l (l + l))
                      (rev (seq 1 (n / 2))) ts in
  (* for (; n > 1;) { tmp = a[n]; a[n] = a[1]; n -= 1; ... } *)
  fold_left (fun ts m =>
               let tmp := geta ts pl m in
               let ts := seta ts pl m (geta ts pl 1) in
               sift n ts pl (m - 1) tmp 1 2)
            (rev (seq 2 (n - 1))) ts.

(** *** The driver

    The C code keeps the pending ranges on a stack; they are disjoint, so
    the order in which they are sorted does not matter.  [popped] tells a
    range taken from the stack, the only place where the depth budget is
    tested, from the range the partition loop goes on with. *)

Fixpoint quicksort_range (fuel : nat) (ts : list nat) (pl pr : nat)
         (cdepth : Z) (popped : bool) : list nat :=
  match fuel with
  | 0 => ts
  | S f =>
      if popped && (cdepth <? 0)%Z then heapsort ts pl pr
      else if 16 <? pr - pl then
        let (ts, pi) := partition ts pl pr in
        let cdepth := (cdepth - 1)%Z in
        if pi - pl <? pr - pi then
          (* the larger range pi+1..pr goes on the stack *)
          let ts := quicksort_range f ts pl (pi - 1) cdepth false in
          quicksort_range f ts (S pi) pr cdepth true
        else
          let ts := quicksort_range f ts (S pi) pr cdepth false in
          quicksort_range f ts pl (pi - 1) cdepth true
      else insertion_sort ts pl pr
  end.

End Argsort.

(** [numpy.argsort(v, kind='quicksort')]. *)
Definition argsort (v : list Q) : list nat :=
  let num := length v in
  quicksort_range v (S num) (seq 0 num) 0 (num - 1)
                  (2 * Z.of_nat (Nat.log2 num)) true.

End Numpy.

(** ** The gaze file loader ([GazeDataLoader.load_gaze_files])

    The files of a family are read at the row type of the family: the
    columns the loader looks at, and the rest of the row as cells.  A file
    that lacks one of these columns is outside the model. *)

Module Loader.
Import Frame.
Local Open Scope string_scope.
Local Open Scope nat_scope.

(** What [pd.read_csv] gives for one file: whether the header has an [eye]
    column, and the rows. *)
Record csv (R : Type) := {
  has_eye : bool;
  body : list R }.

(** What the loader needs of a row type: the cell under [eye] ([nan] when
    the file has no such column), the numeric columns by name, and the
    comparison of two rows on all their columns. *)
Class Family (R : Type) := {
  eye : R -> cell;
  column : string -> option (R -> Q);
  row_eqb : R -> R -> bool }.

Record fixation := {
  fix_eye : cell;
  fix_tStart : Q;
  fix_duration : Q;
  fix_other : list cell }.

Record saccade := {
  sac_eye : cell;
  sac_tStart : Q;
  ampDeg : Q;
  vPeak : Q;
  sac_duration : Q;
  sac_other : list cell }.

Record blink := {
  blink_eye : cell;
  blink_tStart : Q;
  blink_other : list cell }.

Record sample := {
  smp_eye : cell;
  tSample : Q;
  RPupil : Q;
  LPupil : Q;
  smp_other : list cell }.

#[export] Instance fixation_family : Family fixation := {
  eye := fix_eye;
  column c :=
    if (c =? "tStart")%string then Some fix_tStart
    else if (c =? "duration")%string then Some fix_duration
    else None;
  row_eqb a b :=
    cell_eqb (fix_eye a) (fix_eye b)
    && Qeq_bool (fix_tStart a) (fix_tStart b)
    && Qeq_bool (fix_duration a) (fix_duration b)
    && cells_eqb (fix_other a) (fix_other b) }.

#[export] Instance saccade_family : Family saccade := {
  eye := sac_eye;
  column c :=
    if (c =? "tStart")%string then Some sac_tStart
    else if (c =? "ampDeg")%string then Some ampDeg
    else if (c =? "vPeak")%string then Some vPeak
    else if (c =? "duration")%string then Some sac_duration
    else None;
  row_eqb a b :=
    cell_eqb (sac_eye a) (sac_eye b)
    && Qeq_bool (sac_tStart a) (sac_tStart b)
    && Qeq_bool (ampDeg a) (ampDeg b)
    && Qeq_bool (vPeak a) (vPeak b)
    && Qeq_bool (sac_duration a) (sac_duration b)
    && cells_eqb (sac_other a) (sac_other b) }.

#[export] Instance blink_family : Family blink := {
  eye := blink_eye;
  column c := if (c =? "tStart")%string then Some blink_tStart else None;
  row_eqb a b :=
    cell_eqb (blink_eye a) (blink_eye b)
    && Qeq_bool (blink_tStart a) (blink_tStart b)
    && cells_eqb (blink_other a) (blink_other b) }.

#[export] Instance sample_family : Family sample := {
  eye := smp_eye;
  column c :=
    if (c =? "tSample")%string then Some tSample
    else if (c =? "RPupil")%string then Some RPupil
    else if (c =? "LPupil")%string then Some LPupil
    else None;
  row_eqb a b :=
    cell_eqb (smp_eye a) (smp_eye b)
    && Qeq_bool (tSample a) (tSample b)
    && Qeq_bool (RPupil a) (RPupil b)
    && Qeq_bool (LPupil a) (LPupil b)
    && cells_eqb (smp_other a) (smp_other b) }.

(** The data directory: the names in it, in the order the system lists
    them, and what [pd.read_csv] makes of a name at each family. *)
Record directory := {
  listing : list string;
  read_fixation : string -> result (csv fixation);
  read_saccade : string -> result (csv saccade);
  read_blink : string -> result (csv blink);
  read_sample : string -> result (csv sample) }.

Definition ends_with (suffix name : string) : bool :=
  (String.length suffix <=? String.length name)
  && (substring (String.length name - String.length suffix)
                (String.length suffix) name =? suffix)%string.

(** [glob.glob(f"{data_path}/*<suffix>")]: the star matches any run of
    characters, but no name that starts with a dot. *)
Definition glob_star (suffix : string) (d : directory) : list string :=
  filter (fun name => negb (String.prefix "." name) && ends_with suffix name)
         (listing d).

(** *** [load_and_filter] *)

Section LoadAndFilter.

(** [numpy.argsort] as [sort_values] calls it. *)
Variable argsort : list Q -> list nat.

Context {R : Type} {F : Family R}.
Variable read_csv : string -> result (csv R).

(** One element of the comprehension:
    [read(f).query("eye == 'R'") if 'eye' in read(f).columns else read(f)]. *)
Definition read_right_eye (file : string) : result (list R) :=
  (c <- read_csv file ;;
   if has_eye c
   then (c' <- read_csv file ;;
         Ok (filter (fun r => cell_eqb (eye r) (Str "R")) (body c')))
   else (c' <- read_csv file ;; Ok (body c')))%result.

(** [pd.concat(tables, ignore_index=True)]. *)
Definition concat (tables : list (list R)) : result (frame R) :=
  match tables with
  | [] => Raise ValueError_no_objects
  | _ => Ok (of_rows (List.concat tables))
  end.

(** [t.take(indexer)]. *)
Definition take (indexer : list nat) (t : frame R) : frame R :=
  flat_map (fun i => match nth_error t i with
                     | Some r => [r]
                     | None => []
                     end) indexer.

(** [t.sort_values(by=c)]. *)
Definition sort_values (c : string) (t : frame R) : result (frame R) :=
  match column c with
  | None => Raise KeyError
  | Some key => Ok (take (argsort (map (fun r => key (snd r)) t)) t)
  end.

(** [t.drop_duplicates()]: a row goes when an equal row came before it. *)
Fixpoint drop_duplicates_from (seen : list R) (t : frame R) : frame R :=
  match t with
  | [] => []
  | r :: rest =>
      if existsb (row_eqb (snd r)) seen
      then drop_duplicates_from (snd r :: seen) rest
      else r :: drop_duplicates_from (snd r :: seen) rest
  end.

Definition drop_duplicates (t : frame R) : frame R :=
  drop_duplicates_from [] t.

(** The last line of [load_and_filter]. *)
Definition sort_dedup (event_type : string) (all_data : frame R)
  : result (frame R) :=
  (sorted <- sort_values (if negb (event_type =? "Sample")%string then "tStart"
                          else "tSample") all_data ;;
   Ok (reset_index (drop_duplicates sorted)))%result.

Definition load_and_filter (files : list string) (event_type : string)
  : result (frame R) :=
  (tables <- for_each read_right_eye files ;;
   all_data <- concat tables ;;
   sort_dedup event_type all_data)%result.

End LoadAndFilter.

(** *** Pupil size *)

(** The sample table once it has its [pupil_size] column; [None] is
    [nan]. *)
Record sample_pupil := {
  smp : sample;
  pupil_size : option Q }.

(** [row['RPupil'] if row['RPupil'] < row['LPupil'] else row['LPupil']]. *)
Definition smaller_pupil (r : sample) : Q :=
  if Qltb (RPupil r) (LPupil r) then RPupil r else LPupil r.

(** [.replace(0, np.nan)] on one value. *)
Definition zero_to_nan (x : Q) : option Q :=
  if Qeq_bool x 0 then None else Some x.

(** The first value that is not [nan], and how many [nan] come before. *)
Fixpoint next_valid (l : list (option Q)) : option (nat * Q) :=
  match l with
  | [] => None
  | Some y :: _ => Some (0, y)
  | None :: t =>
      match next_valid t with
      | Some (k, y) => Some (S k, y)
      | None => None
      end
  end.

Definition Qnat (n : nat) : Q := inject_Z (Z.of_nat n).

(** [.interpolate(method='linear', limit_direction='both')]: the rows count
    as equally spaced; a [nan] between two values lies on the line through
    them, a [nan] before the first value or after the last takes that
    value, and a column without any value stays as it is.  [prev] is the
    last value seen and the distance to it. *)
Fixpoint interpolate_from (prev : option (nat * Q)) (l : list (option Q))
  : list (option Q) :=
  match l with
  | [] => []
  | Some y :: t => Some y :: interpolate_from (Some (1, y)) t
  | None :: t =>
      match prev, next_valid t with
      | Some (d, a), Some (k, b) =>
          Some ((b - a) / Qnat (d + S k) * Qnat d + a)%Q
      | Some (_, a), None => Some a
      | None, Some (_, b) => Some b
      | None, None => None
      end
      :: interpolate_from (match prev with
                           | Some (d, a) => Some (S d, a)
                           | None => None
                           end) t
  end.

Definition interpolate (l : list (option Q)) : list (option Q) :=
  interpolate_from None l.

(** Lines 152 to 154: the column of the smaller pupil, zero taken as
    missing, the gaps filled. *)
Definition pupil_column (rows : list sample) : list (option Q) :=
  interpolate (map zero_to_nan (map smaller_pupil rows)).

Definition add_pupil_size (t : frame sample) : frame sample_pupil :=
  map (fun rp => (fst (fst rp), {| smp := snd (fst rp); pupil_size := snd rp |}))
      (combine t (pupil_column (rows t))).

(** *** Outlier filters *)

(** [bool(s)] of a pandas Series: it raises whatever the Series holds. *)
Definition series_bool (s : list bool) : result bool :=
  Raise ValueError_ambiguous.

(** [lo < s < hi] on a Series [s]: Python evaluates
    [(lo < s) and (s < hi)], and [and] asks for the truth value of its
    left operand. *)
Definition chained_lt (lo : Q) (s : list Q) (hi : Q) : result (list bool) :=
  let left := map (fun x => Qltb lo x) s in
  (b <- series_bool left ;;
   Ok (if b then map (fun x => Qltb x hi) s else left))%result.

(** [m1 & m2] on two masks over the same rows. *)
Fixpoint mask_and (m1 m2 : list bool) : list bool :=
  match m1, m2 with
  | a :: m1', b :: m2' => (a && b) :: mask_and m1' m2'
  | _, _ => []
  end.

(** [t[mask]]. *)
Definition select_mask {A} (t : frame A) (mask : list bool) : frame A :=
  map fst (filter snd (combine t mask)).

(** Line 157. *)
Definition saccade_filter (all_sac : frame saccade) : result (frame saccade) :=
  let m1 := map (fun r => Qltb 0 (ampDeg r)) (rows all_sac) in
  (m2 <- chained_lt 5 (map vPeak (rows all_sac)) 1000 ;;
   let m3 := map (fun r => Qltb (ampDeg r) 20) (rows all_sac) in
   let m4 := map (fun r => Qltb (sac_duration r) 600) (rows all_sac) in
   Ok (select_mask all_sac (mask_and (mask_and (mask_and m1 m2) m3) m4))
  )%result.

(** Line 158. *)
Definition fixation_filter (all_fix : frame fixation) : frame fixation :=
  let m1 := map (fun r => Qltb 40 (fix_duration r)) (rows all_fix) in
  let m2 := map (fun r => Qltb (fix_duration r) 1000) (rows all_fix) in
  select_mask all_fix (mask_and m1 m2).

(** *** [load_gaze_files] *)

Section LoadGazeFiles.

Variable argsort : list Q -> list nat.

Definition load_gaze_files (d : directory)
  : result (frame fixation * frame saccade * frame blink * frame sample_pupil) :=
  let fix_files := glob_star "_Fixation.csv" d in
  let sac_files := glob_star "_Saccade.csv" d in
  let blink_files := glob_star "_Blink.csv" d in
  let sample_files := glob_star "_Sample.csv" d in
  (all_fix <- load_and_filter argsort (read_fixation d) fix_files "Fixation" ;;
   all_sac <- load_and_filter argsort (read_saccade d) sac_files "Saccade" ;;
   all_blink <- load_and_filter argsort (read_blink d) blink_files "Blink" ;;
   all_sample <- load_and_filter argsort (read_sample d) sample_files "Sample" ;;
   let all_sample := add_pupil_size all_sample in
   all_sac <- saccade_filter all_sac ;;
   let all_fix := fixation_filter all_fix in
   Ok (all_fix, all_sac, all_blink, all_sample))%result.

End LoadGazeFiles.

End Loader.

(** ** Properties of inputs used in the statements *)

Section TimelineProperties.
Import Locator.

(** A timeline is non-decreasing when earlier positions hold smaller or
    equal values. *)
Definition nondecreasing (arr : list Q) : Prop :=
  forall i j, i <= j -> j < length arr -> (at_ arr i <= at_ arr j)%Q.

Fixpoint nondecreasingb (arr : list Q) : bool :=
  match arr with
  | [] => true
  | x :: t => match t with
              | [] => true
              | y :: _ => Qle_bool x y && nondecreasingb t
              end
  end.

End TimelineProperties.

Section IdentifierProperties.
Local Open Scope string_scope.

(** [p] occurs in [s]. *)
Definition is_substring (p s : string) : Prop :=
  exists pre suf, s = pre ++ p ++ suf.

(** The substrings the three rule cascades look for. *)
Definition recognized : list string :=
  [ "Sham"; "Practice"; "MW"; "SVT"; "Inf"; "Rote"; "Deep"; "DriftCorrect";
    "Recal"; "BIGBREAK"; "Resting"; "Localizer"; "IBI began"; "Lang Task";
    "UNDEFINED"; "ShamStart";
    "Validity"; "Bias"; "CausalClaims"; "Variables"; "Hypotheses";
    "Z_Question"; "Y_Question" ].

(** An identifier without any of them, nor "sham" in any letter case. *)
Definition no_recognized (id : string) : Prop :=
  (forall p, In p recognized -> ~ is_substring p id) /\
  ~ is_substring "sham" (Classifier.lower id).

(** The identifier made of the one character U+00B2, superscript two. *)
Definition superscript_two : string :=
  String (ascii_of_nat 178) EmptyString.

(** The first digit character of the identifier, if it has one, is a
    decimal digit. *)
Fixpoint first_digit_decimal (id : string) : bool :=
  match id with
  | EmptyString => true
  | String c t => if Classifier.isdigit c then is_ok (Classifier.int_of_char c)
                  else first_digit_decimal t
  end.

End IdentifierProperties.


Section AlignerProperties.
Import Frame Locator Aligner.

(** The range located for an event on the two timelines of a table: the
    position nearest to its onset among the starts, and the position
    nearest to its end among the ends. *)
Definition located_range (starts ends : list Q) (e : event_row)
  : result (Z * Z) :=
  ('(start_time, start_idx) <- find_nearest starts (eye_sample e) ;;
   '(end_time, end_idx) <-
      find_nearest ends (start_time + duration_sec e * 1000)%Q ;;
   Ok (Z.of_nat start_idx, Z.of_nat end_idx))%result.

(** The event claims the label [k]: [k] lies after the located start and
    up to the located end. *)
Definition claims (starts ends : list Q) (e : event_row) (k : Z) : bool :=
  match located_range starts ends e with
  | Ok (s, t) => (s <? k)%Z && (k <=? t)%Z
  | Raise _ => false
  end.

(** The last event of the sequence that claims [k], if any does. *)
Fixpoint last_claim (starts ends : list Q) (events : list event_row) (k : Z)
  : option event_row :=
  match events with
  | [] => None
  | e :: rest =>
      match last_claim starts ends rest k with
      | Some e' => Some e'
      | None => if claims starts ends e k then Some e else None
      end
  end.

(** The [event] cell a row labelled [k] ends with: the label of the last
    event that claims it, or what it had. *)
Definition final_event (starts ends : list Q) (events : list event_row)
           (k : Z) (before : cell) : cell :=
  match last_claim starts ends events k with
  | Some e => EVENT e
  | None => before
  end.

Definition starts_of (data : frame window) : list Q :=
  map (fun r => tStart (snd r)) data.
Definition ends_of (data : frame window) : list Q :=
  map (fun r => tEnd (snd r)) data.

(** The caller's table with every row tagged by its last claim. *)
Definition tagged_by (events : list event_row) (data : frame window)
  : frame tagged :=
  map (fun r => (fst r,
                 {| win := snd r;
                    event := final_event (starts_of data) (ends_of data)
                                         events (fst r) NaN |})) data.

End AlignerProperties.


Section LoaderProperties.
Import Frame Loader.
Local Open Scope string_scope.
Local Open Scope nat_scope.

(** What numpy promises of [argsort], whatever the [kind]: the result is a
    permutation of the positions, and the keys at these positions, read in
    order, do not go down.  Nothing is promised on the order of equal
    keys unless the kind is stable, which the default is not. *)
Definition sorts (argsort : list Q -> list nat) : Prop :=
  forall keys,
    Permutation (argsort keys) (seq 0 (length keys)) /\
    StronglySorted (fun i j => (Locator.at_ keys i <= Locator.at_ keys j)%Q)
                   (argsort keys).

(** The keys go up strictly: no two rows share a value. *)
Definition increasing (keys : list Q) : Prop := StronglySorted Qlt keys.

(** No row of the table equals a row before it. *)
Definition dupfree {R} {F : Family R} (t : frame R) : Prop :=
  ForallOrdPairs (fun earlier later => row_eqb later earlier = false) (rows t).

(** The table carries the default index. *)
Definition range_indexed {A} (t : frame A) : Prop :=
  labels t = range_index (length t).

(** The time column [load_and_filter] sorts a family by. *)
Definition time_column (event_type : string) : string :=
  if negb (event_type =? "Sample")%string then "tStart" else "tSample".

(** A sort that meets [sorts]: insertion of the positions one by one. *)
Fixpoint insert_position (keys : list Q) (i : nat) (l : list nat) : list nat :=
  match l with
  | [] => [i]
  | j :: l' =>
      if Qle_bool (Locator.at_ keys i) (Locator.at_ keys j) then i :: l
      else j :: insert_position keys i l'
  end.

Definition insertion_argsort (keys : list Q) : list nat :=
  fold_right (insert_position keys) [] (seq 0 (length keys)).

(** Eighteen blinks that start at the same time and differ in another
    column. *)
Definition simultaneous_blinks : frame blink :=
  of_rows (map (fun n => {| blink_eye := Str "R";
                            blink_tStart := 0;
                            blink_other := [Num (Qnat n)] |})
               (seq 0 18)).

(** Three blinks at three times. *)
Definition three_blinks : frame blink :=
  of_rows [ {| blink_eye := Str "R"; blink_tStart := 10; blink_other := [] |};
            {| blink_eye := Str "R"; blink_tStart := 20; blink_other := [] |};
            {| blink_eye := Str "R"; blink_tStart := 30; blink_other := [] |} ].

(** A directory with one file of fixations, one of saccades and one of
    samples, and no file of blinks. *)
Definition directory_without_blinks : directory :=
  {| listing := [ "s01_Fixation.csv"; "s01_Saccade.csv"; "s01_Sample.csv" ];
     read_fixation := fun _ =>
       Ok {| has_eye := true;
             body := [ {| fix_eye := Str "R"; fix_tStart := 10;
                          fix_duration := 200; fix_other := [] |} ] |};
     read_saccade := fun _ =>
       Ok {| has_eye := true;
             body := [ {| sac_eye := Str "R"; sac_tStart := 210; ampDeg := 2;
                          vPeak := 100; sac_duration := 30;
                          sac_other := [] |} ] |};
     read_blink := fun _ => Raise ReadError;
     read_sample := fun _ =>
       Ok {| has_eye := false;
             body := [ {| smp_eye := NaN; tSample := 10; RPupil := 4;
                          LPupil := 5; smp_other := [] |} ] |} |}.

(** One saccade well inside every bound of the outlier filter. *)
Definition one_saccade : frame saccade :=
  of_rows [ {| sac_eye := Str "R"; sac_tStart := 210; ampDeg := 2;
               vPeak := 100; sac_duration := 30; sac_other := [] |} ].

End LoaderProperties.

Section AlignerExamples.
Import Frame Aligner.

(** Three sample windows and one event that reaches the second. *)
Definition three_windows : frame window :=
  of_rows [ {| tStart := 90; tEnd := 110; other := [] |};
            {| tStart := 100; tEnd := 120; other := [] |};
            {| tStart := 110; tEnd := 130; other := [] |} ].

Definition one_event : list event_row :=
  [ {| eye_sample := 90; duration_sec := 3 # 100; EVENT := Str "E" |} ].

End AlignerExamples.


(** ** Further properties of inputs and outputs *)

Section ClassifierVocabulary.
Local Open Scope string_scope.

(** The values the three rule cascades can give. *)
Definition trialtype_vocabulary : list string :=
  [ "sham"; "Prac"; "MW"; "SVT"; "Inference"; "Rote"; "Deep"; "DriftCorrect";
    "Recal"; "Break"; "restingState"; "Localizer"; "UNDEFINED"; "NA";
    "reading" ].

Definition text_vocabulary : list string :=
  [ "Validity"; "Bias"; "CausalClaims"; "Variables"; "Hypotheses"; "NA" ].

Definition stage_vocabulary : list string := [ "Y"; "Z"; "X" ].

(** The characters of a string, in order. *)
Fixpoint chars (s : string) : list ascii :=
  match s with
  | EmptyString => []
  | String c t => c :: chars t
  end.

End ClassifierVocabulary.

Section LoaderExamples.
Import Frame Loader.
Local Open Scope string_scope.

(** The blinks of [three_blinks] out of order, the first one twice. *)
Definition shuffled_blinks : frame blink :=
  of_rows [ {| blink_eye := Str "R"; blink_tStart := 20; blink_other := [] |};
            {| blink_eye := Str "R"; blink_tStart := 10; blink_other := [] |};
            {| blink_eye := Str "R"; blink_tStart := 30; blink_other := [] |};
            {| blink_eye := Str "R"; blink_tStart := 10; blink_other := [] |} ].

(** Three fixations, of 40, 200 and 1000 ms. *)
Definition three_fixations : frame fixation :=
  of_rows [ {| fix_eye := Str "R"; fix_tStart := 0; fix_duration := 40;
               fix_other := [] |};
            {| fix_eye := Str "R"; fix_tStart := 50; fix_duration := 200;
               fix_other := [] |};
            {| fix_eye := Str "R"; fix_tStart := 300; fix_duration := 1000;
               fix_other := [] |} ].

(** A sample with the given pupil sizes, right then left. *)
Definition sample_of (right left : Q) : sample :=
  {| smp_eye := NaN; tSample := 0; RPupil := right; LPupil := left;
     smp_other := [] |}.

End LoaderExamples.

Section LoaderFiles.
Import Frame Loader.
Local Open Scope string_scope.

(** The four patterns [load_gaze_files] globs for. *)
Definition family_suffixes : list string :=
  [ "_Fixation.csv"; "_Saccade.csv"; "_Blink.csv"; "_Sample.csv" ].

(** A reader of blink files: [bad_Blink.csv] cannot be read; every other
    name holds one blink of the left eye and one of the right. *)
Definition two_eye_blinks (name : string) : result (csv blink) :=
  if (name =? "bad_Blink.csv")%string then Raise ReadError
  else Ok {| has_eye := true;
             body := [ {| blink_eye := Str "L"; blink_tStart := 10;
                          blink_other := [] |};
                       {| blink_eye := Str "R"; blink_tStart := 20;
                          blink_other := [] |} ] |}.

End LoaderFiles.


(** ** The event files ([GazeDataLoader.load_events], [load_sham])

    An event file is read at the columns the two functions look at:
    [Text], [VAL] and [PageNum], and [eye_sample] when the header has it.
    A file that lacks [Text], [VAL] or [PageNum] is outside the model. *)

Module Events.
Import Frame.
Local Open Scope string_scope.
Local Open Scope nat_scope.

Record event_line := {
  Text : cell;
  VAL : cell;
  PageNum : cell;
  eye_sample : cell;
  other : list cell }.

(** What [pd.read_csv] gives for an event file: whether the header has an
    [eye_sample] column, and the rows. *)
Record events_csv := {
  has_eye_sample : bool;
  lines : list event_line }.

(** A row once the table has its [TrialType] column. *)
Record event := {
  line : event_line;
  TrialType : cell }.

Definition set_Text (l : event_line) (t : cell) : event_line :=
  {| Text := t; VAL := VAL l; PageNum := PageNum l;
     eye_sample := eye_sample l; other := other l |}.

(** [col.fillna(method='bfill')]: a missing value takes the next value
    that is there; the missing values after the last one stay. *)
Fixpoint bfill (col : list cell) : list cell :=
  match col with
  | [] => []
  | c :: rest =>
      let filled := bfill rest in
      (if isna c
       then match filled with
            | [] => c
            | next :: _ => next
            end
       else c) :: filled
  end.

(** [events['Text'] = col]. *)
Definition assign_Text (events : frame event_line) (col : list cell)
  : frame event_line :=
  map (fun rc => (fst (fst rc), set_Text (snd (fst rc)) (snd rc)))
      (combine events col).

(** [VAL.map({7: 'reading', 20: 'sham'})] on one value: what the dict does
    not hold maps to [nan]. *)
Definition map_VAL (v : cell) : cell :=
  match v with
  | Num q => if Qeq_bool q 7 then Str "reading"
             else if Qeq_bool q 20 then Str "sham"
             else NaN
  | _ => NaN
  end.

(** [column == value] on one cell: [nan] equals nothing, and cells of two
    kinds differ. *)
Definition series_eq (c v : cell) : bool :=
  match c, v with
  | Num x, Num y => Qeq_bool x y
  | Str s, Str t => String.eqb s t
  | _, _ => false
  end.

Definition events_path (data_path subject : string) : string :=
  data_path ++ "/" ++ subject ++ "_events.csv".

Section LoadEvents.

Variable read_csv : string -> result events_csv.
Variable data_path : string.

Definition load_events (subject trial_type : string) : result (frame event) :=
  (c <- read_csv (events_path data_path subject) ;;
   let events := of_rows (lines c) in
   let events := assign_Text events (bfill (map Text (rows events))) in
   let events :=
     map (fun r => (fst r, {| line := snd r;
                              TrialType := map_VAL (VAL (snd r)) |})) events in
   let events :=
     reset_index (select (fun r => series_eq (TrialType r) (Str trial_type))
                         events) in
   Ok (if has_eye_sample c
       then reset_index
              (select (fun r => negb (isna (eye_sample (line r)))) events)
       else events))%result.

(** [pd.concat(frames)]: the rows keep their labels. *)
Definition concat_frames {A} (frames : list (frame A)) : result (frame A) :=
  match frames with
  | [] => Raise ValueError_no_objects
  | _ => Ok (List.concat frames)
  end.

Definition load_sham (subject : string) : result (frame event) :=
  (events <- load_events subject "sham" ;;
   let sham_texts := map (fun r => Text (line r)) (rows events) in
   let sham_pages := map (fun r => PageNum (line r)) (rows events) in
   sham_events <-
     concat_frames
       (map (fun pt =>
               Loader.select_mask events
                 (Loader.mask_and
                    (map (fun r => series_eq (PageNum (line r)) (fst pt))
                         (rows events))
                    (map (fun r => series_eq (Text (line r)) (snd pt))
                         (rows events))))
            (combine sham_pages sham_texts)) ;;
   Ok (reset_index sham_events))%result.

End LoadEvents.

End Events.

(** ** Properties of event files used in the statements *)

Section EventProperties.
Import Frame Events.
Local Open Scope string_scope.

(** The first value of a column that is there, [nan] when none is. *)
Fixpoint first_valid (col : list cell) : cell :=
  match col with
  | [] => NaN
  | c :: rest => if isna c then first_valid rest else c
  end.

(** Two events are of the same page of the same text. *)
Definition same_page (a b : event) : bool :=
  series_eq (PageNum (line a)) (PageNum (line b))
  && series_eq (Text (line a)) (Text (line b)).

(** The lines of a file once their text is filled and their trial type
    set. *)
Definition tagged_lines (c : events_csv) : list event :=
  map (fun lt => {| line := set_Text (fst lt) (snd lt);
                    TrialType := map_VAL (VAL (fst lt)) |})
      (combine (lines c) (bfill (map Text (lines c)))).

(** The rows [load_events] keeps: of the trial type asked for and, when
    the file has the column, with an eye sample. *)
Definition kept (c : events_csv) (trial_type : string) (r : event) : bool :=
  series_eq (TrialType r) (Str trial_type)
  && (negb (has_eye_sample c) || negb (isna (eye_sample (line r)))).

(** An event line of the given text, code and page. *)
Definition line_of (text val page : cell) : event_line :=
  {| Text := text; VAL := val; PageNum := page; eye_sample := NaN;
     other := [] |}.

(** An event file of five lines: the text is given on the third and on
    the last; the second and fourth lines are sham pages. *)
Definition five_lines : events_csv :=
  {| has_eye_sample := false;
     lines := [ line_of NaN (Num 7) (Num 1);
                line_of NaN (Num 20) (Num 1);
                line_of (Str "bias") (Num 7) (Num 2);
                line_of NaN (Num 20) (Num 2);
                line_of (Str "validity") (Num 3) (Num 3) ] |}.

(** The directory [data] holds that file for subject [s01], and nothing
    that can be read for any other. *)
Definition one_subject (path : string) : result events_csv :=
  if (path =? "data/s01_events.csv")%string then Ok five_lines
  else Raise ReadError.

End EventProperties.

(** ** Splitting, downsampling and joining the sample report
    ([DataWrangling.create_pid_samplereports], [downsample],
    [concat_pids]) *)

Module Wrangling.
Import Classifier.
Local Open Scope string_scope.
Local Open Scope nat_scope.

(** *** [create_pid_samplereports] *)

(** The CSV files of the output folder, by file name: the rows each holds
    under its header.  The folder is there when the loop starts
    ([os.makedirs]); the report is given by its rows. *)
Definition folder := string -> option (list classified).






(** The two [to_csv] of the loop: onto the end of a file that exists,
    without a header, and into a new file otherwise. *)
Definition to_csv (fs : folder) (output_file : string)
           (participant_data : list classified) : folder :=
  fun name =>
    if (name =? output_file)%string
    then match fs output_file with
         | Some rows => Some (rows ++ participant_data)%list
         | None => Some participant_data
         end
    else fs name.





(** *** [downsample] *)

Inductive number := PyInt (z : Z) | PyFloat (q : Q).

Inductive py_error :=
  ZeroDivisionError | TypeError_slice_step | ValueError_slice_step.

Inductive outcome (A : Type) : Type :=
| Returns (a : A)
| Fails (e : py_error).
Arguments Returns {A} a.
Arguments Fails {A} e.

(** [a / b] on two ints: true division gives a float, also when [b]
    divides [a]. *)
Definition true_div (a b : Z) : outcome number :=
  if (b =? 0)%Z then Fails ZeroDivisionError
  else Returns (PyFloat (inject_Z a / inject_Z b)).

(** Every [k]-th element, the next one after [skip] more. *)
Fixpoint every {A} (k skip : nat) (l : list A) : list A :=
  match l with
  | [] => []
  | x :: t => match skip with
              | 0 => x :: every k (k - 1) t
              | S s => every k s t
              end
  end.

(** [df.iloc[::step, :]]: the step of a positional slice is an integer. *)
Definition iloc_step {A} (step : number) (df : list A) : outcome (list A) :=
  match step with
  | PyFloat _ => Fails TypeError_slice_step
  | PyInt Z0 => Fails ValueError_slice_step
  | PyInt (Zpos p) => Returns (every (Pos.to_nat p) 0 df)
  | PyInt (Zneg p) => Returns (every (Pos.to_nat p) 0 (rev df))
  end.

Definition downsample_at {A} (downsampleHZ : Z) (df : list A)
  : outcome (list A) :=
  match true_div 1000 downsampleHZ with
  | Fails e => Fails e
  | Returns downsample_rows => iloc_step downsample_rows df
  end.

Definition downsampleHZ : Z := 100.

Definition downsample {A} (df : list A) : outcome (list A) :=
  downsample_at downsampleHZ df.

(** *** [concat_pids] *)

(** A table read from CSV by columns: the names of the header in their
    order, each with the values under it. *)
Definition table := list (string * list cell).

Fixpoint lookup (c : string) (df : table) : option (list cell) :=
  match df with
  | [] => None
  | (name, values) :: rest =>
      if (name =? c)%string then Some values else lookup c rest
  end.

Definition cols : list string :=
  [ "RECORDING_SESSION_LABEL"; "identifier"; "ParticipantID"; "Text";
    "PageNum"; "TrialType"; "TRIAL_INDEX"; "AVERAGE_GAZE_X";
    "AVERAGE_GAZE_Y"; "TIMESTAMP"; "TRIAL_START_TIME";
    "AVERAGE_VELOCITY_X"; "AVERAGE_VELOCITY_Y"; "AVERAGE_ACCELERATION_X";
    "AVERAGE_ACCELERATION_Y" ].

(** [df[cs]]: the columns named, in the order of [cs]; a name the table
    lacks is a [KeyError]. *)
Definition getitem_cols (df : table) (cs : list string) : result table :=
  for_each (fun c => match lookup c df with
                     | Some values => Ok (c, values)
                     | None => Raise KeyError
                     end) cs.

(** [pd.concat(frames, ignore_index=True)] on tables that have the same
    columns, as the tables [df[cols]] have: under each column, the values
    of the frames one after the other. *)
Definition concat (frames : list table) : result table :=
  match frames with
  | [] => Raise ValueError_no_objects
  | first :: _ =>
      Ok (map (fun cv =>
                 (fst cv,
                  List.concat (map (fun f => match lookup (fst cv) f with
                                             | Some values => values
                                             | None => []
                                             end) frames)))
              first)
  end.

(** An entry of [os.listdir(input_folder)]: its name, and whether it is
    a file.  The files are read by their name in that folder. *)
Record dir_entry := {
  file_name : string;
  isfile : bool }.

(** What the function prints. *)
Inductive printed :=
| Error_processing (name : string) (e : exn)
| Saved_as (output_file : string)
| No_files.

Section ConcatPids.

(** What the function meets: the listing of the input folder, or the
    exception [os.listdir] raises when the folder cannot be listed; the
    files of the folder as [pd.read_csv] reads them; and what writing a
    table to a path does. *)
Variable listdir : result (list dir_entry).
Variable read_csv : string -> result table.
Variable to_csv : string -> table -> result unit.

(** The loop over the folder: the tables appended to [data_frames], and
    the messages printed.  An exception of [read_csv] or of [df[cols]] is
    caught and printed. *)
Fixpoint gather (entries : list dir_entry) : list table * list printed :=
  match entries with
  | [] => ([], [])
  | entry :: rest =>
      let '(data_frames, log) := gather rest in
      if isfile entry && Loader.ends_with ".csv" (file_name entry)
      then match (df <- read_csv (file_name entry) ;;
                  getitem_cols df cols)%result with
           | Ok selected => (selected :: data_frames, log)
           | Raise e =>
               (data_frames, Error_processing (file_name entry) e :: log)
           end
      else (data_frames, log)
  end.

(** What is printed, and the table written to the output file, if any,
    or the exception that ends the call: [os.listdir] and [to_csv] are
    outside the [try]. *)
Definition concat_pids (output_file : string)
  : list printed * result (option table) :=
  match listdir with
  | Raise e => ([], Raise e)
  | Ok entries =>
      let '(data_frames, log) := gather entries in
      match data_frames with
      | [] => ((log ++ [No_files])%list, Ok None)
      | _ :: _ =>
          match concat data_frames with
          | Raise e => (log, Raise e)
          | Ok final_df =>
              match to_csv output_file final_df with
              | Raise e => (log, Raise e)
              | Ok _ => ((log ++ [Saved_as output_file])%list,
                         Ok (Some final_df))
              end
          end
      end
  end.

End ConcatPids.

End Wrangling.

(** ** Properties of the sample report used in the statements *)

Section WranglingProperties.
Import Classifier Wrangling.
Local Open Scope string_scope.



(** The table has every column of [cs]. *)
Definition has_columns (cs : list string) (df : table) : bool :=
  forallb (fun c => match lookup c df with Some _ => true | None => false end)
          cs.

(** The tables of the folder that [concat_pids] can use, in the order of
    the listing: those of the files named [.csv] that can be read and have
    the fifteen columns. *)
Definition usable (read_csv : string -> result table)
           (entries : list dir_entry) : list table :=
  flat_map (fun entry =>
              if isfile entry && Loader.ends_with ".csv" (file_name entry)
              then match read_csv (file_name entry) with
                   | Ok df => if has_columns cols df then [df] else []
                   | Raise _ => []
                   end
              else [])
           entries.

(** The files [concat_pids] gives up on. *)
Definition unusable (read_csv : string -> result table)
           (entries : list dir_entry) : list string :=
  flat_map (fun entry =>
              if isfile entry && Loader.ends_with ".csv" (file_name entry)
              then match read_csv (file_name entry) with
                   | Ok df => if has_columns cols df then []
                              else [file_name entry]
                   | Raise _ => [file_name entry]
                   end
              else [])
           entries.

(** The values under a column, none when the table lacks it. *)
Definition values_of (c : string) (df : table) : list cell :=
  match lookup c df with Some values => values | None => [] end.

Definition is_error (p : printed) : bool :=
  match p with Error_processing _ _ => true | _ => false end.

(** The file a message is about. *)
Definition file_of (p : printed) : string :=
  match p with
  | Error_processing name _ => name
  | Saved_as output_file => output_file
  | No_files => EmptyString
  end.





End WranglingProperties.

Section JoinExamples.
Import Wrangling.
Local Open Scope string_scope.

(** A table with the fifteen columns and one row, the cell under each
    column holding [v]. *)
Definition full_table (v : cell) : table :=
  map (fun c => (c, [v])) cols.

(** A folder with two files that can be used, one without the columns,
    one that cannot be read, a text file and a directory. *)
Definition mixed_folder : list dir_entry :=
  [ {| file_name := "a.csv"; isfile := true |};
    {| file_name := "narrow.csv"; isfile := true |};
    {| file_name := "broken.csv"; isfile := true |};
    {| file_name := "notes.txt"; isfile := true |};
    {| file_name := "old.csv"; isfile := false |};
    {| file_name := "b.csv"; isfile := true |} ].

Definition read_mixed (name : string) : result table :=
  if (name =? "a.csv")%string then Ok (full_table (Num 1))
  else if (name =? "b.csv")%string then Ok (full_table (Num 2))
  else if (name =? "narrow.csv")%string then Ok [("identifier", [Str "x"])]
  else Raise ReadError.

End JoinExamples.
(** * Part II: verification *)

(** ** Exact comparison *)

Lemma Qltb_lt x y : Qltb x y = true <-> (x < y)%Q.
Proof.
  unfold Qltb. rewrite negb_true_iff.
  split; intros H.
  - apply Qnot_le_lt. intros Hle. apply Qle_bool_iff in Hle. congruence.
  - destruct (Qle_bool y x) eqn:E; [|reflexivity].
    apply Qle_bool_iff in E. exfalso. exact (Qlt_not_le _ _ H E).
Qed.

Lemma Qltb_ge x y : Qltb x y = false <-> (y <= x)%Q.
Proof.
  unfold Qltb. rewrite negb_false_iff. apply Qle_bool_iff.
Qed.

(** ** Facts about the locator *)

Section LocatorFacts.
Import Locator.

Lemma nondecreasing_cons x arr :
  nondecreasing (x :: arr) -> nondecreasing arr.
Proof.
  intros H i j Hij Hj. apply (H (S i) (S j)); simpl; lia.
Qed.

Lemma nondecreasingb_sound arr : nondecreasingb arr = true -> nondecreasing arr.
Proof.
  induction arr as [|x t IH]; intros Hb i j Hij Hj; simpl in Hj; [lia|].
  destruct t as [|y t'].
  - simpl in Hj. assert (i = 0) by lia. assert (j = 0) by lia. subst.
    apply Qle_refl.
  - simpl in Hb. apply andb_true_iff in Hb. destruct Hb as [Hxy Ht].
    apply Qle_bool_iff in Hxy. specialize (IH Ht).
    destruct j as [|j].
    + assert (i = 0) by lia. subst. apply Qle_refl.
    + destruct i as [|i].
      * unfold at_ at 1. simpl nth at 1.
        apply Qle_trans with (at_ (y :: t') 0); [exact Hxy|].
        apply (IH 0 j); simpl in *; lia.
      * apply (IH i j); simpl in *; lia.
Qed.

Lemma binsearch_left_range arr v lo hi :
  lo <= hi -> lo <= binsearch_left arr v lo hi <= hi.
Proof.
  funelim (binsearch_left arr v lo hi); intros Hle.
  - lia.
  - assert ((hi - lo) / 2 < hi - lo) by (apply Nat.div_lt; lia).
    match goal with IH : _ -> _ <= binsearch_left _ _ _ _ <= _ |- _ =>
      specialize (IH ltac:(lia)) end.
    lia.
  - assert ((hi - lo) / 2 < hi - lo) by (apply Nat.div_lt; lia).
    match goal with IH : _ -> _ <= binsearch_left _ _ _ _ <= _ |- _ =>
      specialize (IH ltac:(lia)) end.
    lia.
Qed.

(** On a non-decreasing timeline the loop returns the insertion point:
    everything before it is smaller than the query, everything from it on
    is at least the query. *)
Lemma binsearch_left_sorted arr v lo hi :
  nondecreasing arr ->
  lo <= hi -> hi <= length arr ->
  (forall i, i < lo -> (at_ arr i < v)%Q) ->
  (forall i, hi <= i -> i < length arr -> (v <= at_ arr i)%Q) ->
  let r := binsearch_left arr v lo hi in
  (forall i, i < r -> (at_ arr i < v)%Q) /\
  (forall i, r <= i -> i < length arr -> (v <= at_ arr i)%Q).
Proof.
  intros Hs.
  funelim (binsearch_left arr v lo hi); intros Hle Hhi Hlo Hup; cbv zeta.
  - assert (lo = hi) by lia. subst. split; assumption.
  - assert ((hi - lo) / 2 < hi - lo) by (apply Nat.div_lt; lia).
    match goal with E : Qltb _ _ = true |- _ => apply Qltb_lt in E; rename E into Hmid end.
    match goal with IH : _ -> _ -> _ -> _ -> _ -> _ |- _ => apply IH end;
      try assumption; try lia.
    intros i Hi.
    apply Qle_lt_trans with (at_ arr (lo + (hi - lo) / 2)); [|exact Hmid].
    apply Hs; lia.
  - assert ((hi - lo) / 2 < hi - lo) by (apply Nat.div_lt; lia).
    match goal with E : Qltb _ _ = false |- _ => apply Qltb_ge in E; rename E into Hmid end.
    match goal with IH : _ -> _ -> _ -> _ -> _ -> _ |- _ => apply IH end;
      try assumption; try lia.
    intros i Hi Hlen.
    apply Qle_trans with (at_ arr (lo + (hi - lo) / 2)); [exact Hmid|].
    apply Hs; lia.
Qed.

Lemma searchsorted_left_le_length arr v : searchsorted_left arr v <= length arr.
Proof.
  unfold searchsorted_left.
  pose proof (binsearch_left_range arr v (Nat.le_0_l (length arr))). lia.
Qed.

Lemma searchsorted_left_spec arr v :
  nondecreasing arr ->
  (forall i, i < searchsorted_left arr v -> (at_ arr i < v)%Q) /\
  (forall i, searchsorted_left arr v <= i -> i < length arr -> (v <= at_ arr i)%Q).
Proof.
  intros Hs. unfold searchsorted_left.
  apply (binsearch_left_sorted (arr:=arr) (v:=v) (lo:=0) (hi:=length arr)); auto; try lia.
Qed.



Lemma getitem_at arr i : i < length arr -> getitem arr i = Ok (at_ arr i).
Proof.
  intros Hi. unfold getitem, at_.
  destruct (nth_error arr i) as [x|] eqn:E.
  - rewrite (nth_error_nth _ _ 0%Q E). reflexivity.
  - apply nth_error_None in E. lia.
Qed.

Lemma at_nth_error arr i : i < length arr -> nth_error arr i = Some (at_ arr i).
Proof.
  intros Hi. unfold at_.
  destruct (nth_error arr i) as [x|] eqn:E.
  - rewrite (nth_error_nth _ _ 0%Q E). reflexivity.
  - apply nth_error_None in E. lia.
Qed.

(** Whatever the timeline holds, the locator answers with a position of
    the timeline as soon as there is one. *)
Lemma find_nearest_some arr v :
  arr <> [] ->
  exists i, find_nearest arr v = Ok (at_ arr i, i) /\ i < length arr /\
            (i = searchsorted_left arr v \/ S i = searchsorted_left arr v).
Proof.
  intros Hne.
  assert (Hlen : 0 < length arr) by (destruct arr; [congruence | simpl; lia]).
  pose proof (searchsorted_left_le_length arr v) as Hidx.
  unfold find_nearest. cbv zeta.
  set (idx := searchsorted_left arr v) in *.
  destruct ((0 <? idx) &&
            ((idx =? length arr)
             || Qltb (Qabs (v - at_ arr (idx - 1))) (Qabs (v - at_ arr idx)))) eqn:C.
  - apply andb_true_iff in C. destruct C as [C0 _]. apply Nat.ltb_lt in C0.
    exists (idx - 1). rewrite getitem_at by lia. simpl.
    repeat split; try lia.
  - exists idx.
    assert (idx < length arr).
    { apply andb_false_iff in C. destruct C as [C|C].
      - apply Nat.ltb_ge in C. lia.
      - apply orb_false_iff in C. destruct C as [C _].
        apply Nat.eqb_neq in C. lia. }
    rewrite getitem_at by lia. simpl. repeat split; auto.
Qed.

(** C7: on a non-empty non-decreasing timeline [find_nearest] returns a
    value of the timeline with its position, position 0 for a query below
    the first element and the last position for a query above the last
    element; it raises only on the empty timeline. *)
Theorem find_nearest_in_bounds arr v :
  nondecreasing arr ->
  (arr = [] -> find_nearest arr v = Raise IndexError) /\
  (arr <> [] ->
   exists x i,
     find_nearest arr v = Ok (x, i) /\ i < length arr /\
     nth_error arr i = Some x /\
     ((v < at_ arr 0)%Q -> i = 0) /\
     ((at_ arr (length arr - 1) < v)%Q -> i = length arr - 1)).
Proof.
  intros Hs. split.
  - intros ->. reflexivity.
  - intros Hne.
    destruct (find_nearest_some v Hne) as (i & Hfn & Hi & Hidx).
    destruct (searchsorted_left_spec v Hs) as [Hbelow Habove].
    exists (at_ arr i), i. repeat split; auto using at_nth_error.
    + (* below the first element: the insertion point is 0 *)
      intros Hlt.
      assert (H0 : searchsorted_left arr v = 0).
      { destruct (searchsorted_left arr v) as [|k] eqn:E; [reflexivity|].
        specialize (Hbelow 0 ltac:(lia)). lra. }
      lia.
    + (* above the last element: the insertion point is the length *)
      intros Hgt.
      assert (Hl : searchsorted_left arr v = length arr).
      { pose proof (searchsorted_left_le_length arr v) as Hle.
        destruct (Nat.eq_dec (searchsorted_left arr v) (length arr)) as [|Hn];
          [assumption|].
        specialize (Habove (length arr - 1) ltac:(lia) ltac:(lia)). lra. }
      unfold find_nearest in Hfn. cbv zeta in Hfn. rewrite Hl in Hfn.
      assert (Hpos : (0 <? length arr) = true) by (apply Nat.ltb_lt; lia).
      rewrite Hpos, Nat.eqb_refl in Hfn. simpl in Hfn.
      rewrite getitem_at in Hfn by lia. simpl in Hfn.
      inversion Hfn. reflexivity.
Qed.

Lemma find_nearest_in_bounds_witness :
  exists x i,
    find_nearest [10; 20; 30]%Q 35%Q = Ok (x, i) /\ i < 3 /\
    nth_error [10; 20; 30]%Q i = Some x /\
    ((35 < 10)%Q -> i = 0) /\
    ((30 < 35)%Q -> i = 2).
Proof.
  apply (proj2 (@find_nearest_in_bounds [10; 20; 30]%Q 35%Q
                  (@nondecreasingb_sound [10; 20; 30]%Q eq_refl))).
  discriminate.
Defined.

(** C2, as the code has it: a query exactly midway between two adjacent
    distinct elements of a non-decreasing timeline is answered with the
    later of the two. *)
Theorem find_nearest_tie_later arr i v :
  nondecreasing arr ->
  S i < length arr ->
  (at_ arr i < at_ arr (S i))%Q ->
  (v - at_ arr i == at_ arr (S i) - v)%Q ->
  find_nearest arr v = Ok (at_ arr (S i), S i).
Proof.
  intros Hs Hi Hlt Hmid.
  destruct (searchsorted_left_spec v Hs) as [Hbelow Habove].
  assert (Hidx : searchsorted_left arr v = S i).
  { destruct (lt_eq_lt_dec (searchsorted_left arr v) (S i)) as [[Hl|He]|Hg].
    - specialize (Habove i ltac:(lia) ltac:(lia)). lra.
    - exact He.
    - specialize (Hbelow (S i) Hg). lra. }
  unfold find_nearest. cbv zeta. rewrite Hidx.
  replace (S i - 1) with i by lia.
  assert (Hne : (S i =? length arr) = false) by (apply Nat.eqb_neq; lia).
  rewrite Hne.
  assert (Htie : Qltb (Qabs (v - at_ arr i)) (Qabs (v - at_ arr (S i))) = false).
  { apply Qltb_ge.
    rewrite (Qabs_pos (v - at_ arr i)) by lra.
    rewrite (Qabs_neg (v - at_ arr (S i))) by lra.
    lra. }
  rewrite Htie. simpl.
  rewrite getitem_at by lia. reflexivity.
Qed.

Lemma find_nearest_tie_later_witness :
  find_nearest [10; 20; 30]%Q 15%Q = Ok (20%Q, 1).
Proof.
  apply (@find_nearest_tie_later [10; 20; 30]%Q 0 15%Q
           (@nondecreasingb_sound [10; 20; 30]%Q eq_refl)).
  - simpl. lia.
  - reflexivity.
  - reflexivity.
Defined.

(** C2, as stated, fails: for [10, 20, 30] and the query 15 the locator
    returns (20, 1), not (10, 0). *)
Lemma find_nearest_tie_counterexample :
  find_nearest [10; 20; 30]%Q 15%Q = Ok (20%Q, 1) /\
  find_nearest [10; 20; 30]%Q 15%Q <> Ok (10%Q, 0).
Proof.
  split; [reflexivity|].
  intros H. vm_compute in H. discriminate H.
Qed.

End LocatorFacts.

(** ** Facts about the identifier classifier *)

Section ClassifierFacts.
Import Classifier.
Local Open Scope string_scope.

Lemma prefix_app p s : String.prefix p s = true <-> exists suf, s = p ++ suf.
Proof.
  revert s. induction p as [|c p IH]; intros s; simpl.
  - split; [intros _; exists s; reflexivity | destruct s; reflexivity].
  - destruct s as [|d s].
    + split; [discriminate | intros [suf H]; discriminate H].
    + simpl. destruct (Ascii.ascii_dec c d) as [->|Hn].
      * rewrite IH. split; intros [suf H]; exists suf.
        -- now rewrite H.
        -- now inversion H.
      * split; [discriminate | intros [suf H]; inversion H; congruence].
Qed.

(** The search behind [in] finds exactly the occurrences. *)
Lemma contains_spec p s : contains p s = true <-> is_substring p s.
Proof.
  induction s as [|c s IH].
  - cbn [contains]. rewrite orb_false_r, prefix_app. split.
    + intros [suf H]. exists "", suf. exact H.
    + intros (pre & suf & H). destruct pre as [|d pre]; [|discriminate H].
      exists suf. exact H.
  - cbn [contains]. rewrite orb_true_iff, prefix_app, IH. split.
    + intros [[suf H] | (pre & suf & H)].
      * exists "", suf. exact H.
      * exists (String c pre), suf. simpl. now rewrite H.
    + intros (pre & suf & H). destruct pre as [|d pre].
      * left. exists suf. exact H.
      * right. exists pre, suf. simpl in H. now inversion H.
Qed.

Lemma contains_false p s : ~ is_substring p s -> contains p s = false.
Proof.
  intros H. destruct (contains p s) eqn:E; [|reflexivity].
  apply contains_spec in E. contradiction.
Qed.

(** The labels of an identifier without a recognized substring. *)
Lemma default_labels participant id :
  no_recognized id ->
  trialtype_conditions participant id = "reading" /\
  text_conditions id = "NA" /\
  stage_conditions id = "X".
Proof.
  intros [Hrec Hsham].
  assert (Hc : forall p, In p recognized -> contains p id = false).
  { intros p Hp. apply contains_false, Hrec, Hp. }
  unfold trialtype_conditions, text_conditions, stage_conditions.
  rewrite (contains_false Hsham), andb_false_r.
  rewrite !Hc by (unfold recognized; simpl; tauto).
  repeat split; reflexivity.
Qed.

Lemma pagenum_conditions_ok trialtype id :
  first_digit_decimal id = true ->
  exists p, pagenum_conditions trialtype id = Ok p.
Proof.
  induction id as [|c t IH]; simpl; intros H.
  - exists PageEmpty. reflexivity.
  - destruct (isdigit c).
    + destruct (int_of_char c) as [n|e]; [|discriminate H].
      simpl. eexists. reflexivity.
    + apply IH, H.
Qed.

(** What the classifier does without a recognized substring: the default
    labels, provided the first digit character is not a superscript. *)
Lemma classify_defaults r :
  no_recognized (identifier r) ->
  first_digit_decimal (identifier r) = true ->
  exists c, classify r = Ok c /\
            TrialType c = "reading" /\ Text c = "NA" /\ Stage c = "X".
Proof.
  intros Hn Hd.
  destruct (default_labels (first_chars 8 (RECORDING_SESSION_LABEL r)) Hn)
    as (Ht & Hx & Hs).
  unfold classify. cbv zeta.
  destruct (pagenum_conditions_ok
              (trialtype_conditions (first_chars 8 (RECORDING_SESSION_LABEL r))
                                    (identifier r)) _ Hd) as [p Hp].
  rewrite Hp. simpl. eexists. split; [reflexivity|]. simpl. auto.
Qed.

(** C4, as the code has it: for "Z_Question_Deep3" the classifier yields
    TrialType "Deep", Stage "Y" and PageNum 3; "Deep" is not one of the
    trial types whose page number is moved up by one. *)
Theorem parse_identifier_deep3 label :
  parse_identifier
    [ {| RECORDING_SESSION_LABEL := label; identifier := "Z_Question_Deep3" |} ]
  = Ok [ {| raw := {| RECORDING_SESSION_LABEL := label;
                      identifier := "Z_Question_Deep3" |};
            ParticipantID := first_chars 8 label;
            FilePart := last_chars 5 label;
            PartNo := last_chars 1 label;
            TrialType := "Deep";
            Text := "NA";
            Stage := "Y";
            PageNum := PageInt 3 |} ].
Proof. reflexivity. Qed.

(** C4, as stated, fails: the page number is 3, not 4. *)
Lemma parse_identifier_deep3_counterexample :
  exists c,
    parse_identifier
      [ {| RECORDING_SESSION_LABEL := "EML1_002_part1";
           identifier := "Z_Question_Deep3" |} ] = Ok [c] /\
    TrialType c = "Deep" /\ Stage c = "Y" /\
    PageNum c = PageInt 3 /\ PageNum c <> PageInt 4.
Proof.
  eexists. split; [reflexivity|]. simpl.
  repeat split; try reflexivity. discriminate.
Qed.

Lemma superscript_two_no_recognized : no_recognized superscript_two.
Proof.
  assert (H : forall p, contains p superscript_two = false -> ~ is_substring p superscript_two).
  { intros p Hp Hs. apply contains_spec in Hs. congruence. }
  split.
  - intros p Hp. apply H.
    unfold recognized in Hp. simpl in Hp.
    repeat (destruct Hp as [<-|Hp]; [reflexivity|]). contradiction.
  - intros Hs. apply contains_spec in Hs. vm_compute in Hs. discriminate Hs.
Qed.

(** C6 at the failing input: the identifier "superscript two" contains no
    recognized substring, its labels are the defaults, and yet
    [parse_identifier] raises: [isdigit] accepts the character and [int]
    does not. *)
Theorem parse_identifier_superscript_raises label :
  no_recognized superscript_two /\
  trialtype_conditions (first_chars 8 label) superscript_two = "reading" /\
  text_conditions superscript_two = "NA" /\
  stage_conditions superscript_two = "X" /\
  parse_identifier
    [ {| RECORDING_SESSION_LABEL := label; identifier := superscript_two |} ]
  = Raise ValueError_int_literal.
Proof.
  split; [exact superscript_two_no_recognized|].
  destruct (default_labels (first_chars 8 label) superscript_two_no_recognized)
    as (Ht & Hx & Hs).
  split; [exact Ht|]. split; [exact Hx|]. split; [exact Hs|].
  reflexivity.
Qed.

End ClassifierFacts.

(** ** Facts about the event aligner *)

Section AlignerFacts.
Import Frame Locator Aligner.

Lemma loc_set_event_tStart data a b v :
  tStart_values (loc_set_event data a b v) = tStart_values data.
Proof.
  unfold tStart_values, loc_set_event. rewrite map_map.
  apply map_ext. intros [k r]. simpl.
  destruct ((a <=? k)%Z && (k <=? b)%Z); reflexivity.
Qed.

Lemma loc_set_event_tEnd data a b v :
  tEnd_values (loc_set_event data a b v) = tEnd_values data.
Proof.
  unfold tEnd_values, loc_set_event. rewrite map_map.
  apply map_ext. intros [k r]. simpl.
  destruct ((a <=? k)%Z && (k <=? b)%Z); reflexivity.
Qed.

(** The loop body in terms of the located range. *)
Lemma tag_event_located data e :
  tag_event data e =
  match located_range (tStart_values data) (tEnd_values data) e with
  | Ok (s, t) => Ok (loc_set_event data (s + 1) t (EVENT e))
  | Raise x => Raise x
  end.
Proof.
  unfold tag_event, located_range.
  destruct (find_nearest (tStart_values data) (eye_sample e)) as [[st si]|x];
    simpl; [|reflexivity].
  destruct (find_nearest (tEnd_values data) (st + duration_sec e * 1000)%Q)
    as [[et ei]|x]; reflexivity.
Qed.

Lemma located_range_ok starts ends e :
  starts <> [] -> ends <> [] ->
  exists s t, located_range starts ends e = Ok (s, t).
Proof.
  intros Hs He. unfold located_range.
  destruct (find_nearest_some (eye_sample e) Hs) as (i & Hi & _).
  rewrite Hi. simpl.
  destruct (find_nearest_some (at_ starts i + duration_sec e * 1000)%Q He)
    as (j & Hj & _).
  rewrite Hj. simpl. eauto.
Qed.



(** The loop: every row ends with the label of the last event that claims
    its index label, or with the cell it had. *)
Lemma tag_events_spec events : forall d,
  d <> [] \/ events = [] ->
  tag_events d events =
  (map (fun r => (fst r,
                  {| win := win (snd r);
                     event := final_event (tStart_values d) (tEnd_values d)
                                          events (fst r) (event (snd r)) |})) d,
   Ok tt).
Proof.
  induction events as [|e rest IH]; intros d Hd.
  - simpl. f_equal.
    transitivity (map (fun x : Z * tagged => x) d); [symmetry; apply map_id|].
    apply map_ext. intros [k [w c]]. reflexivity.
  - destruct Hd as [Hd|Hd]; [|discriminate Hd].
    cbn [tag_events]. rewrite tag_event_located.
    destruct (@located_range_ok (tStart_values d) (tEnd_values d) e)
      as (s & t & Hst).
    { destruct d; [congruence | discriminate]. }
    { destruct d; [congruence | discriminate]. }
    rewrite Hst.
    rewrite IH by (left; destruct d; [congruence | discriminate]).
    rewrite loc_set_event_tStart, loc_set_event_tEnd.
    f_equal. unfold loc_set_event. rewrite map_map.
    apply map_ext. intros [k [w c]].
    unfold final_event. cbn [last_claim fst snd].
    unfold claims. rewrite Hst.
    replace (s + 1 <=? k)%Z with (s <? k)%Z
      by (destruct (Z.ltb_spec s k), (Z.leb_spec (s + 1) k); lia || reflexivity).
    destruct ((s <? k)%Z && (k <=? t)%Z); cbn [fst snd win event];
      destruct (last_claim (tStart_values d) (tEnd_values d) rest k);
      reflexivity.
Qed.

Lemma parse_events_spec events data :
  data <> [] \/ events = [] ->
  parse_events events data =
  (tagged_by events data,
   Ok (reset_index (dropna_event (tagged_by events data)))).
Proof.
  intros Hd. unfold parse_events.
  rewrite tag_events_spec
    by (destruct Hd as [Hd|Hd]; [left | right; exact Hd];
        destruct data; [congruence | discriminate]).
  assert (Hs : tStart_values (add_event_column data) = starts_of data).
  { unfold tStart_values, add_event_column, starts_of. rewrite map_map.
    reflexivity. }
  assert (He : tEnd_values (add_event_column data) = ends_of data).
  { unfold tEnd_values, add_event_column, ends_of. rewrite map_map.
    reflexivity. }
  rewrite Hs, He.
  assert (Ht : map (fun r : Z * tagged =>
                      (fst r,
                       {| win := win (snd r);
                          event := final_event (starts_of data) (ends_of data)
                                               events (fst r) (event (snd r)) |}))
                   (add_event_column data) = tagged_by events data).
  { unfold add_event_column, tagged_by. rewrite map_map. reflexivity. }
  rewrite Ht. reflexivity.
Qed.

Lemma fst_combine {A B} (l : list A) (l' : list B) :
  length l = length l' -> map fst (combine l l') = l.
Proof.
  revert l'. induction l as [|a l IH]; intros [|b l'] H; simpl in *;
    try reflexivity; try discriminate.
  f_equal. apply IH. lia.
Qed.

Lemma snd_combine {A B} (l : list A) (l' : list B) :
  length l = length l' -> map snd (combine l l') = l'.
Proof.
  revert l'. induction l as [|a l IH]; intros [|b l'] H; simpl in *;
    try reflexivity; try discriminate.
  f_equal. apply IH. lia.
Qed.

Lemma labels_of_rows {A} (rs : list A) :
  labels (of_rows rs) = range_index (length rs).
Proof.
  unfold labels, of_rows. rewrite fst_combine; [reflexivity|].
  unfold range_index. rewrite length_map, length_seq. reflexivity.
Qed.

Lemma rows_of_rows {A} (rs : list A) : rows (of_rows rs) = rs.
Proof.
  unfold rows, of_rows. rewrite snd_combine; [reflexivity|].
  unfold range_index. rewrite length_map, length_seq. reflexivity.
Qed.

Lemma length_of_rows {A} (rs : list A) : length (of_rows rs) = length rs.
Proof.
  unfold of_rows. rewrite length_combine.
  unfold range_index. rewrite length_map, length_seq. lia.
Qed.

Lemma rows_dropna_event (t : frame tagged) :
  rows (reset_index (dropna_event t))
  = filter (fun r => negb (isna (event r))) (rows t).
Proof.
  unfold reset_index. rewrite rows_of_rows.
  unfold rows, dropna_event, select.
  induction t as [|[k r] t IH]; simpl; [reflexivity|].
  destruct (negb (isna (event r))); simpl; rewrite IH; reflexivity.
Qed.



(** C10: the call changes the table it is given: afterwards the caller's
    table has the same rows under the same labels and an [event] column,
    missing where no event claimed the row and else the label of the last
    event that did; the value returned is another table: exactly the rows
    of the caller's table that have an event, in their order, under the
    labels 0, 1, 2, ... *)
Theorem parse_events_mutates_caller events data :
  index_increasing data -> data <> [] \/ events = [] ->
  let caller := fst (parse_events events data) in
  caller = tagged_by events data /\
  labels caller = labels data /\
  map win (rows caller) = rows data /\
  (forall k r, In (k, r) caller ->
     event r = match last_claim (starts_of data) (ends_of data) events k with
               | Some e => EVENT e
               | None => NaN
               end) /\
  exists returned,
    snd (parse_events events data) = Ok returned /\
    rows returned = filter (fun r => negb (isna (event r))) (rows caller) /\
    labels returned = range_index (length (rows returned)) /\
    Forall (fun r => isna (event r) = false) (rows returned) /\
    (forall r, In r (rows caller) -> isna (event r) = false ->
               In r (rows returned)).
Proof.
  intros _ Hd. cbv zeta. rewrite parse_events_spec by assumption.
  cbn [fst snd].
  split; [reflexivity|].
  split.
  { unfold labels, tagged_by. rewrite map_map. reflexivity. }
  split.
  { unfold rows, tagged_by. rewrite !map_map. reflexivity. }
  split.
  { intros k r Hin. unfold tagged_by in Hin. apply in_map_iff in Hin.
    destruct Hin as [[k' w] [Heq Hin]]. cbn [fst snd] in Heq.
    inversion Heq; subst. reflexivity. }
  eexists. split; [reflexivity|].
  split; [apply rows_dropna_event|].
  split.
  { unfold reset_index. rewrite labels_of_rows, rows_of_rows. reflexivity. }
  rewrite rows_dropna_event. split.
  - apply Forall_forall. intros r Hin. apply filter_In in Hin.
    destruct Hin as [_ Hna]. now apply negb_true_iff in Hna.
  - intros r Hin Hna. apply filter_In. split; [exact Hin|].
    rewrite Hna. reflexivity.
Qed.

End AlignerFacts.

Section AlignerRuns.
Import Frame Locator Aligner.

Lemma three_windows_increasing : index_increasing three_windows.
Proof.
  unfold index_increasing, three_windows, labels, of_rows, range_index.
  simpl. repeat constructor; lia.
Qed.


Lemma parse_events_mutates_caller_witness :
  exists returned,
    snd (parse_events one_event three_windows) = Ok returned /\
    rows returned
    = filter (fun r => negb (isna (event r)))
             (rows (fst (parse_events one_event three_windows))) /\
    labels returned = range_index (length (rows returned)) /\
    Forall (fun r => isna (event r) = false) (rows returned) /\
    (forall r, In r (rows (fst (parse_events one_event three_windows))) ->
               isna (event r) = false -> In r (rows returned)).
Proof.
  refine (proj2 (proj2 (proj2 (proj2
            (@parse_events_mutates_caller one_event three_windows _ _))))).
  - exact three_windows_increasing.
  - left. discriminate.
Defined.

(** The event at 90 over 30 ms: the start located is window 0, the end
    located is window 1, which ends at 120, so window 1 alone is tagged;
    the caller's table keeps its three rows. *)
Example parse_events_one_event :
  parse_events one_event three_windows
  = ([ (0%Z, {| win := {| tStart := 90; tEnd := 110; other := [] |};
                event := NaN |});
       (1%Z, {| win := {| tStart := 100; tEnd := 120; other := [] |};
                event := Str "E" |});
       (2%Z, {| win := {| tStart := 110; tEnd := 130; other := [] |};
                event := NaN |}) ],
     Ok [ (0%Z, {| win := {| tStart := 100; tEnd := 120; other := [] |};
                   event := Str "E" |}) ]).
Proof. reflexivity. Qed.

(** Without any sample the first event makes the locator raise. *)
Example parse_events_empty_table :
  parse_events one_event [] = ([], Raise IndexError).
Proof. reflexivity. Qed.

End AlignerRuns.

(** ** Facts about the gaze file loader *)

Section LoaderFacts.
Import Frame Loader.
Local Open Scope string_scope.
Local Open Scope nat_scope.

(** *** The outlier filters *)

Lemma select_mask_and {A} (f g : A -> bool) (t : frame A) :
  select_mask t (mask_and (map f (rows t)) (map g (rows t)))
  = filter (fun r => f (snd r) && g (snd r)) t.
Proof.
  unfold select_mask, rows.
  induction t as [|[k r] t IH]; simpl; [reflexivity|].
  destruct (f r && g r); simpl; rewrite IH; reflexivity.
Qed.

(** The fixation filter, written with [&] on both sides, keeps exactly the
    rows whose duration lies strictly between 40 and 1000. *)
Lemma fixation_filter_keeps all_fix k r :
  In (k, r) (fixation_filter all_fix) <->
  In (k, r) all_fix /\ (40 < fix_duration r)%Q /\ (fix_duration r < 1000)%Q.
Proof.
  unfold fixation_filter.
  rewrite (select_mask_and (fun r => Qltb 40 (fix_duration r))
                           (fun r => Qltb (fix_duration r) 1000)).
  rewrite filter_In. cbn [snd].
  rewrite andb_true_iff, !Qltb_lt. tauto.
Qed.

(** C1 on the code: the saccade filter writes the bound on [vPeak] as a
    chained comparison, which asks a Series for its truth value; the
    filter raises on every table, the one-row table [one_saccade]
    included, and so no call of [load_gaze_files] returns. *)
Theorem saccade_filter_raises :
  (forall all_sac, saccade_filter all_sac = Raise ValueError_ambiguous) /\
  saccade_filter one_saccade = Raise ValueError_ambiguous /\
  (forall argsort d, is_ok (load_gaze_files argsort d) = false).
Proof.
  split; [reflexivity|]. split; [reflexivity|].
  intros argsort d. unfold load_gaze_files. cbv zeta.
  destruct (load_and_filter argsort (read_fixation d) _ _); [|reflexivity].
  destruct (load_and_filter argsort (read_saccade d) _ _); [|reflexivity].
  destruct (load_and_filter argsort (read_blink d) _ _); [|reflexivity].
  destruct (load_and_filter argsort (read_sample d) _ _); reflexivity.
Qed.

(** *** A family without files *)

(** C3 on the code: without any file [pd.concat] has nothing to
    concatenate and [load_and_filter] raises; in a directory that holds
    fixations, saccades and samples but no blinks, [load_gaze_files] ends
    with that exception and returns no table at all. *)
Theorem missing_family_raises :
  (forall argsort (R : Type) (F : Family R) (read_csv : string -> result (csv R))
          event_type,
     load_and_filter argsort read_csv [] event_type
     = Raise ValueError_no_objects) /\
  glob_star "_Blink.csv" directory_without_blinks = [] /\
  load_gaze_files Numpy.argsort directory_without_blinks
  = Raise ValueError_no_objects.
Proof.
  split; [reflexivity|]. split; [reflexivity|].
  vm_compute. reflexivity.
Qed.

End LoaderFacts.

(** ** Facts about the pupil size column *)

Section PupilFacts.
Import Frame Loader.
Local Open Scope nat_scope.


Lemma zero_to_nan_none x : zero_to_nan x = None <-> (x == 0)%Q.
Proof.
  unfold zero_to_nan. destruct (Qeq_bool x 0) eqn:E.
  - apply Qeq_bool_iff in E. tauto.
  - split; [discriminate|]. intros H. apply Qeq_bool_iff in H. congruence.
Qed.

Lemma zero_to_nan_some x : ~ (x == 0)%Q -> zero_to_nan x = Some x.
Proof.
  intros H. unfold zero_to_nan. destruct (Qeq_bool x 0) eqn:E; [|reflexivity].
  apply Qeq_bool_iff in E. contradiction.
Qed.



(** Up to a value that is there, the column is filled on its own. *)
Lemma interpolate_from_app prev pre a rest :
  exists filled,
    length filled = length pre /\
    interpolate_from prev (pre ++ Some a :: rest)
    = filled ++ Some a :: interpolate_from (Some (1, a)) rest.
Proof.
  revert prev. induction pre as [|[y|] pre IH]; intros prev.
  - exists []. split; reflexivity.
  - destruct (IH (Some (1, y))) as (filled & Hlen & Heq).
    exists (Some y :: filled). split; [simpl; congruence|].
    simpl. rewrite Heq. reflexivity.
  - destruct (IH (match prev with
                  | Some (d, a0) => Some (S d, a0)
                  | None => None
                  end)) as (filled & Hlen & Heq).
    eexists (_ :: filled). split; [simpl; congruence|].
    cbn [app interpolate_from]. rewrite Heq. reflexivity.
Qed.

Lemma next_valid_leading n v rest :
  next_valid (repeat None n ++ Some v :: rest) = Some (n, v).
Proof.
  induction n as [|n IH]; simpl; [reflexivity|]. rewrite IH. reflexivity.
Qed.



Lemma zero_to_nan_zeros zeros :
  Forall (fun r => (smaller_pupil r == 0)%Q) zeros ->
  map zero_to_nan (map smaller_pupil zeros) = repeat None (length zeros).
Proof.
  induction 1 as [|r zeros Hr _ IH]; simpl; [reflexivity|].
  rewrite IH. apply zero_to_nan_none in Hr. rewrite Hr. reflexivity.
Qed.






End PupilFacts.

(** ** Facts about the sort and dedup step *)

Section SortFacts.
Import Frame Loader.
Local Open Scope nat_scope.

(** *** Lists of positions *)

Lemma strongly_sorted_seq a n : StronglySorted lt (seq a n).
Proof.
  revert a. induction n as [|n IH]; intros a; simpl; constructor.
  - apply IH.
  - apply Forall_forall. intros x Hx. apply in_seq in Hx. lia.
Qed.

(** Two strictly increasing lists with the same elements are the same
    list. *)
Lemma strictly_sorted_unique (l1 l2 : list nat) :
  StronglySorted lt l1 -> StronglySorted lt l2 -> Permutation l1 l2 ->
  l1 = l2.
Proof.
  revert l2. induction l1 as [|a l1 IH]; intros l2 H1 H2 HP.
  - apply Permutation_nil in HP. congruence.
  - destruct l2 as [|b l2].
    { apply Permutation_sym, Permutation_nil in HP. discriminate. }
    inversion H1 as [|? ? H1' Ha]; subst.
    inversion H2 as [|? ? H2' Hb]; subst.
    assert (Hab : a = b).
    { assert (Ina : In a (b :: l2))
        by (apply (Permutation_in _ HP); left; reflexivity).
      assert (Inb : In b (a :: l1))
        by (apply (Permutation_in _ (Permutation_sym HP)); left; reflexivity).
      destruct Ina as [->|Ina]; [reflexivity|].
      destruct Inb as [->|Inb]; [reflexivity|].
      rewrite Forall_forall in Ha, Hb.
      specialize (Ha _ Inb). specialize (Hb _ Ina). lia. }
    subst b. f_equal. apply IH; auto.
    apply (Permutation_cons_inv HP).
Qed.

(** *** Keys that go up strictly *)

Lemma increasing_at keys i j :
  increasing keys -> i < j -> j < length keys ->
  (Locator.at_ keys i < Locator.at_ keys j)%Q.
Proof.
  unfold increasing, Locator.at_. intros H. revert i j.
  induction H as [|x keys Hs IH Hx]; intros i j Hij Hj; simpl in Hj; [lia|].
  destruct j as [|j]; [lia|]. destruct i as [|i]; simpl.
  - rewrite Forall_forall in Hx. apply Hx. apply nth_In. lia.
  - apply IH; lia.
Qed.

(** On keys that go up strictly a sort has no choice: the positions come
    back in their order. *)
Lemma argsort_increasing argsort keys :
  sorts argsort -> increasing keys ->
  argsort keys = seq 0 (length keys).
Proof.
  intros Hsorts Hinc. destruct (Hsorts keys) as [HP HS].
  apply strictly_sorted_unique; [| apply strongly_sorted_seq | exact HP].
  assert (Hnd : NoDup (argsort keys)).
  { apply (Permutation_NoDup (Permutation_sym HP)), seq_NoDup. }
  assert (Hin : forall i, In i (argsort keys) -> i < length keys).
  { intros i Hi. apply (Permutation_in _ HP), in_seq in Hi. lia. }
  revert HS Hnd Hin. generalize (argsort keys) as p.
  induction p as [|a p IH]; intros HS Hnd Hin; constructor.
  - inversion HS; subst. inversion Hnd; subst.
    apply IH; auto. intros i Hi. apply Hin. right. exact Hi.
  - inversion HS as [|? ? _ Ha]; subst. inversion Hnd as [|? ? Hna _]; subst.
    rewrite Forall_forall in *. intros b Hb.
    specialize (Ha b Hb).
    destruct (lt_eq_lt_dec a b) as [[Hlt|Heq]|Hgt]; [exact Hlt | | ].
    + subst. contradiction.
    + pose proof (increasing_at Hinc Hgt (Hin a (or_introl eq_refl))). lra.
Qed.

(** *** The three steps on a table that is already in order *)

Section Step.
Context {R : Type} {F : Family R}.

Lemma take_seq_from (pre t : frame R) :
  take (seq (length pre) (length t)) (pre ++ t) = t.
Proof.
  revert pre. induction t as [|r t IH]; intros pre; [reflexivity|].
  unfold take in *. cbn [length seq flat_map].
  rewrite nth_error_app2 by lia. rewrite Nat.sub_diag. cbn [nth_error app].
  f_equal.
  specialize (IH (pre ++ [r])).
  rewrite length_app, <- app_assoc in IH. cbn [length app] in IH.
  rewrite Nat.add_1_r in IH. exact IH.
Qed.

Lemma take_seq (t : frame R) : take (seq 0 (length t)) t = t.
Proof. exact (take_seq_from [] t). Qed.

Lemma drop_duplicates_from_dupfree seen (t : frame R) :
  (forall s r, In s seen -> In r (rows t) -> row_eqb r s = false) ->
  dupfree t ->
  drop_duplicates_from seen t = t.
Proof.
  unfold dupfree, rows. revert seen.
  induction t as [|[k r] t IH]; intros seen Hseen Hfree; [reflexivity|].
  cbn [drop_duplicates_from snd map] in *.
  inversion Hfree as [|? ? Hr Hrest]; subst.
  assert (Hex : existsb (row_eqb r) seen = false).
  { destruct (existsb (row_eqb r) seen) eqn:E; [|reflexivity].
    apply existsb_exists in E. destruct E as (s & Hs & Heq).
    rewrite (Hseen s r Hs (or_introl eq_refl)) in Heq. discriminate. }
  rewrite Hex. f_equal. apply IH; [|exact Hrest].
  intros s r' [<-|Hs] Hr'.
  - rewrite Forall_forall in Hr. apply Hr. exact Hr'.
  - apply Hseen; [exact Hs | right; exact Hr'].
Qed.

Lemma drop_duplicates_dupfree (t : frame R) :
  dupfree t -> drop_duplicates t = t.
Proof.
  intros H. apply drop_duplicates_from_dupfree; [|exact H].
  intros s r [].
Qed.

Lemma combine_labels_rows {A} (t : frame A) : combine (labels t) (rows t) = t.
Proof.
  unfold labels, rows. induction t as [|[k r] t IH]; simpl; congruence.
Qed.

Lemma reset_index_range_indexed {A} (t : frame A) :
  range_indexed t -> reset_index t = t.
Proof.
  unfold range_indexed, reset_index, of_rows. intros H.
  unfold rows at 1. rewrite length_map, <- H. apply combine_labels_rows.
Qed.

(** C9, as the code has it: on a table with the default index, whose rows
    are free of duplicates and go up strictly in the time column of the
    family, the sort and dedup step of [load_and_filter] returns the table
    as it is, whatever sort of numpy is behind [sort_values]. *)
Theorem sort_dedup_identity argsort event_type (key : R -> Q) (t : frame R) :
  sorts argsort ->
  column (time_column event_type) = Some key ->
  increasing (map key (rows t)) ->
  dupfree t ->
  range_indexed t ->
  sort_dedup argsort event_type t = Ok t.
Proof.
  intros Hsorts Hcol Hinc Hfree Hrange.
  unfold sort_dedup, sort_values.
  change (if negb (event_type =? "Sample")%string then "tStart"%string
          else "tSample"%string) with (time_column event_type).
  rewrite Hcol. cbn [bind].
  assert (Hkeys : map (fun r : Z * R => key (snd r)) t = map key (rows t)).
  { unfold rows. rewrite map_map. reflexivity. }
  rewrite Hkeys, (argsort_increasing Hsorts Hinc).
  unfold rows at 1. rewrite !length_map, take_seq.
  rewrite (drop_duplicates_dupfree Hfree).
  rewrite (reset_index_range_indexed Hrange). reflexivity.
Qed.

End Step.

(** *** A sort that meets the contract *)

Lemma insert_position_perm keys i l :
  Permutation (insert_position keys i l) (i :: l).
Proof.
  induction l as [|j l IH]; simpl; [reflexivity|].
  destruct (Qle_bool (Locator.at_ keys i) (Locator.at_ keys j)); [reflexivity|].
  rewrite IH. apply perm_swap.
Qed.

Lemma insert_position_sorted keys i l :
  StronglySorted (fun a b => (Locator.at_ keys a <= Locator.at_ keys b)%Q) l ->
  StronglySorted (fun a b => (Locator.at_ keys a <= Locator.at_ keys b)%Q)
                 (insert_position keys i l).
Proof.
  induction 1 as [|j l Hs IH Hj]; simpl.
  - constructor; constructor.
  - destruct (Qle_bool (Locator.at_ keys i) (Locator.at_ keys j)) eqn:E.
    + apply Qle_bool_iff in E. constructor.
      * constructor; assumption.
      * constructor; [exact E|].
        rewrite Forall_forall in *. intros b Hb. specialize (Hj b Hb). lra.
    + assert (Hlt : (Locator.at_ keys j <= Locator.at_ keys i)%Q).
      { destruct (Qlt_le_dec (Locator.at_ keys i) (Locator.at_ keys j)) as [H|H];
          [|exact H].
        apply Qlt_le_weak, Qle_bool_iff in H. congruence. }
      constructor; [exact IH|].
      rewrite Forall_forall in *. intros b Hb.
      apply (Permutation_in _ (insert_position_perm keys i l)) in Hb.
      destruct Hb as [<-|Hb]; [exact Hlt | apply Hj, Hb].
Qed.

Lemma insertion_argsort_sorts : sorts insertion_argsort.
Proof.
  intros keys. unfold insertion_argsort.
  generalize (seq 0 (length keys)) as l.
  induction l as [|i l [HP HS]]; simpl.
  - split; constructor.
  - split.
    + rewrite insert_position_perm. constructor. exact HP.
    + apply insert_position_sorted, HS.
Qed.

Lemma sort_dedup_identity_witness :
  sort_dedup insertion_argsort "Blink" three_blinks = Ok three_blinks.
Proof.
  apply (@sort_dedup_identity blink blink_family insertion_argsort "Blink"
           blink_tStart three_blinks).
  - exact insertion_argsort_sorts.
  - reflexivity.
  - unfold increasing. simpl. repeat constructor.
  - unfold dupfree. simpl. repeat constructor.
  - reflexivity.
Defined.

(** *** Rows that share a time *)

(** What the default sort of numpy does with eighteen equal keys: the
    partition swaps equal entries from both ends. *)
Example argsort_equal_keys :
  Numpy.argsort (map blink_tStart (rows simultaneous_blinks))
  = [0; 15; 14; 13; 12; 11; 10; 9; 8; 7; 6; 5; 4; 3; 2; 1; 16; 17].
Proof. reflexivity. Qed.

(** With three distinct times the same sort leaves the table alone. *)
Example sort_dedup_three_blinks :
  sort_dedup Numpy.argsort "Blink" three_blinks = Ok three_blinks.
Proof. reflexivity. Qed.

(** C9, as stated, fails: the eighteen blinks of [simultaneous_blinks]
    are sorted by [tStart] (they all start at 0), free of duplicates and
    under the default index, and the step, run with the default sort of
    numpy, returns them in another order. *)
Lemma sort_dedup_ties_counterexample :
  nondecreasing (map blink_tStart (rows simultaneous_blinks)) /\
  dupfree simultaneous_blinks /\
  range_indexed simultaneous_blinks /\
  sort_dedup Numpy.argsort "Blink" simultaneous_blinks
  <> Ok simultaneous_blinks.
Proof.
  split; [apply nondecreasingb_sound; reflexivity|].
  split.
  { unfold dupfree. simpl. repeat constructor. }
  split; [reflexivity|].
  intros H. vm_compute in H. discriminate H.
Qed.

End SortFacts.

(** ** More on the locator *)

Section LocatorMore.
Import Locator.



(** X2: a query that is on a non-decreasing timeline is answered with
    itself, at the first position that holds it. *)
Theorem find_nearest_exact arr v j :
  nondecreasing arr ->
  j < length arr -> (at_ arr j == v)%Q ->
  exists i,
    find_nearest arr v = Ok (at_ arr i, i) /\
    (at_ arr i == v)%Q /\ i <= j /\
    forall k, k < i -> (at_ arr k < v)%Q.
Proof.
  intros Hs Hj Hv.
  destruct (searchsorted_left_spec v Hs) as [Hbelow Habove].
  set (idx := searchsorted_left arr v) in *.
  assert (Hle : idx <= j).
  { destruct (Nat.lt_ge_cases j idx) as [Hlt|Hge]; [|exact Hge].
    specialize (Hbelow j Hlt). lra. }
  assert (Hhit : (at_ arr idx == v)%Q).
  { pose proof (Habove idx (Nat.le_refl idx) ltac:(lia)).
    pose proof (Hs idx j Hle Hj). lra. }
  exists idx. split; [|auto].
  unfold find_nearest. cbv zeta. fold idx.
  assert (Hne : (idx =? length arr) = false) by (apply Nat.eqb_neq; lia).
  assert (Hnl : Qltb (Qabs (v - at_ arr (idx - 1))) (Qabs (v - at_ arr idx))
                = false).
  { apply Qltb_ge.
    assert (Hz : (Qabs (v - at_ arr idx) == 0)%Q).
    { rewrite Qabs_pos by lra. lra. }
    rewrite Hz. apply Qabs_nonneg. }
  rewrite Hne, Hnl, andb_false_r. rewrite getitem_at by lia. reflexivity.
Qed.

Lemma find_nearest_exact_witness :
  exists i,
    find_nearest [10; 20; 20; 30]%Q 20%Q = Ok (at_ [10; 20; 20; 30]%Q i, i) /\
    (at_ [10; 20; 20; 30]%Q i == 20)%Q /\ i <= 2 /\
    forall k, k < i -> (at_ [10; 20; 20; 30]%Q k < 20)%Q.
Proof.
  apply (@find_nearest_exact [10; 20; 20; 30]%Q 20%Q 2).
  - apply nondecreasingb_sound. reflexivity.
  - simpl. lia.
  - reflexivity.
Defined.

(** X3: whether the array is sorted or not, a call on a non-empty array
    does not raise: it returns an element of the array together with the
    position that holds it. *)
Theorem find_nearest_unsorted arr v :
  arr <> [] ->
  exists x i,
    find_nearest arr v = Ok (x, i) /\ i < length arr /\
    nth_error arr i = Some x.
Proof.
  intros Hne. destruct (find_nearest_some v Hne) as (i & Hfn & Hi & _).
  exists (at_ arr i), i. auto using at_nth_error.
Qed.

Lemma find_nearest_unsorted_witness :
  exists x i,
    find_nearest [30; 10; 20]%Q 12%Q = Ok (x, i) /\ i < 3 /\
    nth_error [30; 10; 20]%Q i = Some x.
Proof.
  apply (@find_nearest_unsorted [30; 10; 20]%Q 12%Q). discriminate.
Defined.

End LocatorMore.

(** ** More on the identifier classifier *)

Section ClassifierMore.
Import Classifier.
Local Open Scope string_scope.
Local Open Scope nat_scope.

Ltac cascade :=
  repeat match goal with
         | |- context [if ?c then _ else _] => destruct c eqn:?
         end.

Lemma increment_only_reading_sham participant id :
  in_list (trialtype_conditions participant id) ["reading"; "sham"; "prac"]
  = true <->
  trialtype_conditions participant id = "reading" \/
  trialtype_conditions participant id = "sham".
Proof.
  split.
  - unfold trialtype_conditions. cascade; simpl; intros H;
      try discriminate H; auto.
  - unfold trialtype_conditions.
    cascade; intros [H|H]; try discriminate H; reflexivity.
Qed.

Lemma sham_first participant id :
  is_substring "Sham" id -> trialtype_conditions participant id = "sham".
Proof.
  intros Hs. apply contains_spec in Hs.
  unfold trialtype_conditions. rewrite Hs. reflexivity.
Qed.

(** X4: the labels always come from the fixed vocabularies, and the trial
    type is never "prac": of the three trial types whose page number is
    moved up by one, only "reading" and "sham" can occur. *)
Theorem labels_in_vocabulary participant id :
  In (trialtype_conditions participant id) trialtype_vocabulary /\
  In (text_conditions id) text_vocabulary /\
  In (stage_conditions id) stage_vocabulary /\
  (in_list (trialtype_conditions participant id) ["reading"; "sham"; "prac"]
   = true <->
   trialtype_conditions participant id = "reading" \/
   trialtype_conditions participant id = "sham").
Proof.
  split; [|split; [|split]].
  - unfold trialtype_conditions, trialtype_vocabulary. cascade; simpl; tauto.
  - unfold text_conditions, text_vocabulary. cascade; simpl; tauto.
  - unfold stage_conditions, stage_vocabulary. cascade; simpl; tauto.
  - apply increment_only_reading_sham.
Qed.

Lemma append_assoc_r s t u : ((s ++ t) ++ u = s ++ (t ++ u))%string.
Proof. induction s as [|c s IH]; simpl; congruence. Qed.

Lemma is_substring_trans p q s :
  is_substring p q -> is_substring q s -> is_substring p s.
Proof.
  intros (a & b & ->) (c & d & ->).
  exists (c ++ a), (b ++ d).
  rewrite !append_assoc_r. reflexivity.
Qed.

(** X5: the rule for "Sham" comes first and wins over every other rule; in
    particular an identifier that contains "ShamStart" is of type "sham",
    so that the later rule for "ShamStart" never decides. *)
Theorem sham_rule_wins participant id :
  (is_substring "Sham" id -> trialtype_conditions participant id = "sham") /\
  (is_substring "ShamStart" id ->
   trialtype_conditions participant id = "sham").
Proof.
  split; [apply sham_first|].
  intros Hs. apply sham_first.
  apply (is_substring_trans (q:="ShamStart")); [|exact Hs].
  exists "", "Start". reflexivity.
Qed.

Lemma sham_rule_wins_witness :
  trialtype_conditions "EML1_002" "Reading_ShamStart_2" = "sham".
Proof.
  apply (proj2 (sham_rule_wins "EML1_002" "Reading_ShamStart_2")).
  exists "Reading_", "_2". reflexivity.
Defined.

Lemma length_append s t : String.length (s ++ t) = String.length s + String.length t.
Proof. induction s as [|c s IH]; simpl; congruence. Qed.

Lemma length_first_chars k s : String.length (first_chars k s) <= k.
Proof.
  unfold first_chars. revert s.
  induction k as [|k IH]; intros [|c s]; simpl; try lia.
  specialize (IH s). lia.
Qed.

(** A pattern found in a string that is no longer than the pattern is the
    whole string. *)
Lemma is_substring_full p s :
  String.length s <= String.length p -> is_substring p s -> s = p.
Proof.
  intros Hlen (a & b & ->).
  rewrite !length_append in Hlen.
  destruct a as [|x a]; [|simpl in Hlen; lia].
  destruct b as [|y b]; [|simpl in Hlen; lia].
  simpl. clear Hlen. induction p as [|c p IH]; simpl; congruence.
Qed.

(** X6: the trial type "NA" is given to the participant EML1_001 only, and
    only to identifiers that hold "sham" in some letter case but not as
    "Sham". *)
Theorem na_only_for_sentinel label id :
  trialtype_conditions (first_chars 8 label) id = "NA" ->
  first_chars 8 label = "EML1_001" /\
  is_substring "sham" (lower id) /\
  ~ is_substring "Sham" id.
Proof.
  intros H.
  assert (Hno : ~ is_substring "Sham" id).
  { intros Hs. rewrite (sham_first (first_chars 8 label) Hs) in H.
    discriminate H. }
  unfold trialtype_conditions in H.
  repeat match type of H with
         | (if ?c then _ else _) = _ =>
             destruct c eqn:?; [try discriminate H|]
         end;
    try discriminate H.
  - match goal with
    | E : (_ && _)%bool = true |- _ =>
        apply andb_true_iff in E; destruct E as [E1 E2]
    end.
    apply contains_spec in E1, E2.
    repeat split; [|exact E2|exact Hno].
    apply is_substring_full; [|exact E1].
    pose proof (length_first_chars 8 label). simpl. lia.
  - exfalso. apply Hno.
    match goal with
    | E : contains "ShamStart" id = true |- _ => apply contains_spec in E;
        apply (is_substring_trans (q:="ShamStart")); [|exact E]
    end.
    exists "", "Start". reflexivity.
Qed.

Lemma na_only_for_sentinel_witness :
  first_chars 8 "EML1_001_part1" = "EML1_001" /\
  is_substring "sham" (lower "page 7 SHAM") /\
  ~ is_substring "Sham" "page 7 SHAM".
Proof.
  apply (@na_only_for_sentinel "EML1_001_part1" "page 7 SHAM").
  reflexivity.
Defined.

(** The value of a page number before the trial type moves it. *)
Lemma int_of_char_range c n : int_of_char c = Ok n -> (0 <= n <= 9)%Z.
Proof.
  unfold int_of_char.
  destruct ((48 <=? nat_of_ascii c) && (nat_of_ascii c <=? 57)) eqn:E;
    [|discriminate].
  apply andb_true_iff in E. destruct E as [E1 E2].
  apply Nat.leb_le in E1, E2. intros H. inversion H. lia.
Qed.

Lemma pagenum_conditions_value trialtype id page :
  pagenum_conditions trialtype id = Ok page ->
  match page with
  | PageEmpty => forall ch, In ch (chars id) -> isdigit ch = false
  | PageInt p =>
      exists d, (0 <= d <= 9)%Z /\
                p = (if in_list trialtype ["reading"; "sham"; "prac"]
                     then d + 1 else d)%Z
  end.
Proof.
  induction id as [|c t IH]; simpl.
  - intros H. inversion H. intros ch [].
  - destruct (isdigit c) eqn:Ed.
    + destruct (int_of_char c) as [n|e] eqn:Ei; simpl; [|discriminate].
      intros H. inversion H. exists n. split; [|reflexivity].
      exact (int_of_char_range _ Ei).
    + intros H. specialize (IH H). destruct page; [exact IH|].
      intros ch [<-|Hin]; [exact Ed | apply IH, Hin].
Qed.

Lemma pagenum_conditions_no_digit trialtype id :
  (forall ch, In ch (chars id) -> isdigit ch = false) ->
  pagenum_conditions trialtype id = Ok PageEmpty.
Proof.
  induction id as [|ch t IH]; simpl; [reflexivity|].
  intros Hnone. rewrite (Hnone ch (or_introl eq_refl)).
  apply IH. intros ch' Hin. apply Hnone. right. exact Hin.
Qed.

(** X7: when a row is classified, its page number is empty exactly when
    the identifier has no digit character; else it is the value of a
    digit, between 0 and 9, and one more, between 1 and 10, when the trial
    type is "reading" or "sham". *)
Theorem pagenum_range r c :
  classify r = Ok c ->
  (PageNum c = PageEmpty <->
   forall ch, In ch (chars (identifier r)) -> isdigit ch = false) /\
  (forall p, PageNum c = PageInt p ->
     (0 <= p <= 10)%Z /\
     (TrialType c = "reading" \/ TrialType c = "sham" -> 1 <= p)%Z /\
     (TrialType c <> "reading" -> TrialType c <> "sham" -> p <= 9)%Z).
Proof.
  unfold classify. cbv zeta.
  set (tt := trialtype_conditions _ _).
  destruct (pagenum_conditions tt (identifier r)) as [page|e] eqn:Ep;
    simpl; [|discriminate].
  intros H. inversion H; subst c; clear H. cbn [PageNum TrialType].
  pose proof (pagenum_conditions_value _ _ Ep) as Hv.
  pose proof (increment_only_reading_sham
                (first_chars 8 (RECORDING_SESSION_LABEL r))
                (identifier r)) as Hinc.
  fold tt in Hinc.
  split.
  - split.
    + intros ->. exact Hv.
    + intros Hnone. destruct page as [p|]; [|reflexivity].
      rewrite (pagenum_conditions_no_digit tt _ Hnone) in Ep.
      discriminate Ep.
  - intros p ->. destruct Hv as (d & Hd & ->).
    destruct (in_list tt ["reading"; "sham"; "prac"]) eqn:Ein.
    + repeat split; try lia.
      intros Hn1 Hn2. destruct (proj1 Hinc eq_refl); contradiction.
    + repeat split; try lia.
      intros Hrs. apply Hinc in Hrs. discriminate Hrs.
Qed.

Lemma pagenum_range_witness :
  (0 <= 8 <= 10)%Z /\
  ("reading" = "reading" \/ "reading" = "sham" -> 1 <= 8)%Z /\
  ("reading" <> "reading" -> "reading" <> "sham" -> 8 <= 9)%Z.
Proof.
  exact (proj2 (@pagenum_range
                  {| RECORDING_SESSION_LABEL := "EML1_002_part1";
                     identifier := "Validity_page7" |}
                  _ eq_refl) 8%Z eq_refl).
Defined.

(** *** The whole frame *)

Lemma for_each_ok {A B} (f : A -> result B) xs ys :
  for_each f xs = Ok ys <-> Forall2 (fun x y => f x = Ok y) xs ys.
Proof.
  revert ys. induction xs as [|x xs IH]; intros ys; simpl.
  - split; [intros H; inversion H; constructor | intros H; inversion H; reflexivity].
  - destruct (f x) as [b|e] eqn:Ef; simpl.
    + destruct (for_each f xs) as [bs|e] eqn:Er; simpl.
      * split.
        -- intros H. inversion H; subst. constructor; [exact Ef|].
           apply IH. reflexivity.
        -- intros H. inversion H as [|? y ? ys' Hy Hys]; subst.
           apply IH in Hys. congruence.
      * split; [discriminate|].
        intros H. inversion H as [|? y ? ys' Hy Hys]; subst.
        apply IH in Hys. discriminate Hys.
    + split; [discriminate|].
      intros H. inversion H; subst. congruence.
Qed.








(** *** The columns cut out of the session label *)

Lemma substring_0_prefix k s :
  exists rest, s = substring 0 k s ++ rest /\
               String.length (substring 0 k s) = Nat.min k (String.length s).
Proof.
  revert s. induction k as [|k IH]; intros [|c s]; simpl.
  - exists "". auto.
  - exists (String c s). auto.
  - exists "". auto.
  - destruct (IH s) as (rest & Hs & Hl). exists rest.
    split; [f_equal; exact Hs | f_equal; exact Hl].
Qed.

Lemma substring_0_all k s :
  String.length s <= k -> substring 0 k s = s.
Proof.
  revert s. induction k as [|k IH]; intros [|c s] H; simpl in *;
    try reflexivity; try lia.
  f_equal. apply IH. lia.
Qed.

Lemma substring_to_end n k s :
  String.length s <= n + k ->
  exists pre, s = pre ++ substring n k s /\
              String.length pre = Nat.min n (String.length s).
Proof.
  revert s. induction n as [|n IH]; intros s H.
  - exists "". rewrite substring_0_all by (simpl in H; lia). auto.
  - destruct s as [|c s].
    + exists "". destruct k; auto.
    + destruct (IH s) as (pre & Hs & Hl); [simpl in H; lia|].
      exists (String c pre). simpl. split; [f_equal; exact Hs | f_equal; exact Hl].
Qed.

Lemma last_chars_suffix k s :
  exists pre, s = pre ++ last_chars k s /\
              String.length (last_chars k s) = Nat.min k (String.length s).
Proof.
  unfold last_chars.
  destruct (@substring_to_end (String.length s - k) k s) as (pre & Hs & Hl);
    [lia|].
  exists pre. split; [exact Hs|].
  assert (Hlen : String.length s
                 = String.length pre
                   + String.length (substring (String.length s - k) k s)).
  { rewrite Hs at 1. apply length_append. }
  lia.
Qed.

Lemma append_same_length_suffix a b c d :
  a ++ b = c ++ d -> String.length b = String.length d -> b = d.
Proof.
  revert c. induction a as [|x a IH]; intros c H Hl.
  - destruct c as [|y c]; [exact H|].
    apply (f_equal String.length) in H. simpl in H.
    rewrite length_append in H. lia.
  - destruct c as [|y c].
    + apply (f_equal String.length) in H. simpl in H.
      rewrite length_append in H. lia.
    + simpl in H. inversion H. eapply IH; eauto.
Qed.

(** X9: the three columns cut out of [RECORDING_SESSION_LABEL]: the
    participant is the head of the label, of 8 characters or of the whole
    label when it is shorter; the file part is its tail of 5 characters,
    or the whole label; and the part number is the last character of the
    file part. *)
Theorem label_columns r c :
  classify r = Ok c ->
  let label := RECORDING_SESSION_LABEL r in
  (exists rest, label = ParticipantID c ++ rest) /\
  String.length (ParticipantID c) = Nat.min 8 (String.length label) /\
  (exists pre, label = pre ++ FilePart c) /\
  String.length (FilePart c) = Nat.min 5 (String.length label) /\
  (exists pre, FilePart c = pre ++ PartNo c) /\
  String.length (PartNo c) = Nat.min 1 (String.length label).
Proof.
  unfold classify. cbv zeta.
  destruct (pagenum_conditions _ (identifier r)); simpl; [|discriminate].
  intros H. inversion H; subst c; clear H.
  cbn [ParticipantID FilePart PartNo].
  set (label := RECORDING_SESSION_LABEL r).
  destruct (substring_0_prefix 8 label) as (rest & Hp & Hpl).
  destruct (last_chars_suffix 5 label) as (pre5 & H5 & H5l).
  destruct (last_chars_suffix 1 label) as (pre1 & H1 & H1l).
  destruct (last_chars_suffix 1 (last_chars 5 label)) as (preF & HF & HFl).
  repeat split; eauto.
  exists preF.
  assert (Heq : last_chars 1 label = last_chars 1 (last_chars 5 label)).
  { apply (@append_same_length_suffix pre1 _ (pre5 ++ preF)).
    - rewrite append_assoc_r, <- HF, <- H5. symmetry. exact H1.
    - lia. }
  rewrite Heq. exact HF.
Qed.

Lemma label_columns_witness :
  exists pre, "part1" = pre ++ "1".
Proof.
  exact (proj1 (proj2 (proj2 (proj2 (proj2
    (@label_columns
       {| RECORDING_SESSION_LABEL := "EML1_002_part1";
          identifier := "Validity_page7" |} _ eq_refl)))))).
Defined.

End ClassifierMore.

(** ** More on the event aligner *)

Section AlignerMore.
Import Frame Locator Aligner.
Local Open Scope nat_scope.

(** X10: on a table whose labels go up, an event whose located end is not
    after its located start tags nothing: the table is left as it is, and
    nothing is raised. *)
Theorem tag_event_empty_range data e s_time s_idx e_time e_idx :
  index_increasing data ->
  find_nearest (tStart_values data) (eye_sample e) = Ok (s_time, s_idx) ->
  find_nearest (tEnd_values data) (s_time + duration_sec e * 1000)%Q
    = Ok (e_time, e_idx) ->
  e_idx <= s_idx ->
  tag_event data e = Ok data.
Proof.
  intros _ Hs He Hle. unfold tag_event. rewrite Hs. simpl. rewrite He. simpl.
  f_equal. unfold loc_set_event.
  transitivity (map (fun r : Z * tagged => r) data); [|apply map_id].
  apply map_ext. intros [k r]. cbn [fst snd].
  destruct (Z.leb_spec (Z.of_nat s_idx + 1) k); [|reflexivity].
  destruct (Z.leb_spec k (Z.of_nat e_idx)); [lia|reflexivity].
Qed.

Lemma tag_event_empty_range_witness :
  tag_event (add_event_column three_windows)
            {| eye_sample := 100; duration_sec := 1 # 100; EVENT := Str "E" |}
  = Ok (add_event_column three_windows).
Proof.
  apply (@tag_event_empty_range (add_event_column three_windows)
           {| eye_sample := 100; duration_sec := 1 # 100; EVENT := Str "E" |}
           100%Q 1 110%Q 0).
  - unfold index_increasing, labels. simpl. repeat constructor; lia.
  - reflexivity.
  - reflexivity.
  - lia.
Defined.

(** X11: when [parse_events] raises.  On a table whose labels go up it
    returns whenever the table has a row or there is no event; on a table
    without rows the first event makes the locator raise [IndexError];
    and without events it returns a table without rows, having given
    every row of the caller's table a missing [event]. *)
Theorem parse_events_edge_cases :
  (forall events data,
     index_increasing data ->
     data <> [] \/ events = [] ->
     is_ok (snd (parse_events events data)) = true) /\
  (forall events,
     events <> [] -> parse_events events [] = ([], Raise IndexError)) /\
  (forall data, parse_events [] data = (add_event_column data, Ok [])).
Proof.
  split; [|split].
  - intros events data _ H. rewrite parse_events_spec by exact H.
    reflexivity.
  - intros [|e rest] H; [congruence|]. reflexivity.
  - intros data. rewrite parse_events_spec by (right; reflexivity).
    assert (Ht : tagged_by [] data = add_event_column data) by reflexivity.
    rewrite Ht. clear Ht. f_equal.
    assert (Hd : dropna_event (add_event_column data) = []).
    { unfold dropna_event, select, add_event_column.
      induction data as [|[k w] data IH]; simpl; [reflexivity | exact IH]. }
    rewrite Hd. reflexivity.
Qed.

Lemma parse_events_edge_cases_witness :
  is_ok (snd (parse_events one_event three_windows)) = true.
Proof.
  apply (proj1 parse_events_edge_cases).
  - unfold index_increasing, labels. simpl. repeat constructor; lia.
  - left. discriminate.
Defined.

(** *** One event on a table under the default index *)

Lemma rows_between_from_inside (A : Type) (s t : nat) (ws : list A) :
  forall off, s < off ->
    map snd (filter (fun r : Z * A =>
                       (Z.of_nat s <? fst r)%Z && (fst r <=? Z.of_nat t)%Z)
                    (combine (map Z.of_nat (seq off (length ws))) ws))
    = firstn (S t - off) ws.
Proof.
  induction ws as [|w ws IH]; intros off Hoff.
  - simpl. rewrite firstn_nil. reflexivity.
  - cbn [length seq map combine filter fst].
    assert (Hs : (Z.of_nat s <? Z.of_nat off)%Z = true)
      by (apply Z.ltb_lt; lia).
    rewrite Hs, andb_true_l.
    destruct (Z.leb_spec (Z.of_nat off) (Z.of_nat t)) as [Hle|Hgt].
    + cbn [map snd]. rewrite IH by lia.
      replace (S t - off) with (S (S t - S off)) by lia. reflexivity.
    + rewrite IH by lia.
      replace (S t - S off) with 0 by lia.
      replace (S t - off) with 0 by lia. reflexivity.
Qed.

Lemma rows_between (A : Type) (s t : nat) (ws : list A) :
  forall off, off <= s ->
    map snd (filter (fun r : Z * A =>
                       (Z.of_nat s <? fst r)%Z && (fst r <=? Z.of_nat t)%Z)
                    (combine (map Z.of_nat (seq off (length ws))) ws))
    = firstn (t - s) (skipn (S s - off) ws).
Proof.
  induction ws as [|w ws IH]; intros off Hoff.
  - simpl. rewrite skipn_nil, firstn_nil. reflexivity.
  - cbn [length seq map combine filter fst].
    assert (Hs : (Z.of_nat s <? Z.of_nat off)%Z = false)
      by (apply Z.ltb_ge; lia).
    rewrite Hs, andb_false_l.
    replace (S s - off) with (S (s - off)) by lia. cbn [skipn].
    destruct (Nat.eq_dec off s) as [->|Hne].
    + rewrite rows_between_from_inside by lia.
      rewrite Nat.sub_diag. cbn [skipn].
      replace (S t - S s) with (t - s) by lia. reflexivity.
    + rewrite IH by lia.
      replace (S s - S off) with (s - off) by lia. reflexivity.
Qed.

Lemma single_event_rows (t : frame window) starts ends e s u :
  located_range starts ends e = Ok (s, u) ->
  isna (EVENT e) = false ->
  map snd
      (filter (fun r : Z * tagged => negb (isna (event (snd r))))
              (map (fun r : Z * window =>
                      (fst r,
                       {| win := snd r;
                          event := final_event starts ends [e] (fst r) NaN |}))
                   t))
  = map (fun w => {| win := w; event := EVENT e |})
        (map snd (filter (fun r : Z * window =>
                            (s <? fst r)%Z && (fst r <=? u)%Z) t)).
Proof.
  intros Hrange Hna.
  induction t as [|[k w] t IH]; [reflexivity|].
  assert (Hfe : final_event starts ends [e] k NaN
                = if (s <? k)%Z && (k <=? u)%Z then EVENT e else NaN).
  { unfold final_event. cbn [last_claim]. unfold claims. rewrite Hrange.
    destruct ((s <? k)%Z && (k <=? u)%Z); reflexivity. }
  cbn [map filter fst snd event]. rewrite Hfe.
  destruct ((s <? k)%Z && (k <=? u)%Z).
  - rewrite Hna. cbn [negb map snd]. f_equal. exact IH.
  - cbn [isna negb]. exact IH.
Qed.

(** X12: one event, with a label, on samples under the default index: the
    table returned holds exactly the samples at the positions after the
    located start up to the located end, in their order, each with the
    label of the event; there are [end_idx - start_idx] of them, none when
    the end is not after the start. *)
Theorem parse_events_single ws e s_time s_idx e_time e_idx :
  ws <> [] ->
  isna (EVENT e) = false ->
  find_nearest (map tStart ws) (eye_sample e) = Ok (s_time, s_idx) ->
  find_nearest (map tEnd ws) (s_time + duration_sec e * 1000)%Q
    = Ok (e_time, e_idx) ->
  exists out,
    snd (parse_events [e] (of_rows ws)) = Ok out /\
    rows out = map (fun w => {| win := w; event := EVENT e |})
                   (firstn (e_idx - s_idx) (skipn (S s_idx) ws)) /\
    length out = e_idx - s_idx.
Proof.
  intros Hne Hna Hs He.
  assert (Hin : e_idx < length ws).
  { destruct (@find_nearest_some (map tEnd ws)
                (s_time + duration_sec e * 1000)%Q) as (i & Hi & Hlt & _).
    { destruct ws; [congruence | discriminate]. }
    rewrite Hi in He. inversion He; subst. rewrite length_map in Hlt.
    exact Hlt. }
  assert (Hdata : of_rows ws <> []).
  { destruct ws; [congruence | discriminate]. }
  rewrite parse_events_spec by (left; exact Hdata). cbn [snd].
  eexists. split; [reflexivity|].
  assert (Hstarts : starts_of (of_rows ws) = map tStart ws).
  { unfold starts_of. rewrite <- (rows_of_rows ws) at 2.
    unfold rows. rewrite map_map. reflexivity. }
  assert (Hends : ends_of (of_rows ws) = map tEnd ws).
  { unfold ends_of. rewrite <- (rows_of_rows ws) at 2.
    unfold rows. rewrite map_map. reflexivity. }
  assert (Hrange : located_range (map tStart ws) (map tEnd ws) e
                   = Ok (Z.of_nat s_idx, Z.of_nat e_idx)).
  { unfold located_range. rewrite Hs. simpl. rewrite He. reflexivity. }
  assert (Hrows :
    rows (reset_index (dropna_event (tagged_by [e] (of_rows ws))))
    = map (fun w => {| win := w; event := EVENT e |})
          (firstn (e_idx - s_idx) (skipn (S s_idx) ws))).
  { unfold reset_index. rewrite rows_of_rows.
    rewrite <- (Nat.sub_0_r (S s_idx)).
    rewrite <- (@rows_between _ s_idx e_idx ws 0) by lia.
    unfold dropna_event, select, tagged_by, rows. rewrite Hstarts, Hends.
    rewrite (@single_event_rows _ _ _ _ _ _ Hrange Hna). reflexivity. }
  split; [exact Hrows|].
  assert (Hlen : length (reset_index
                           (dropna_event (tagged_by [e] (of_rows ws))))
                 = length (rows (reset_index
                           (dropna_event (tagged_by [e] (of_rows ws)))))).
  { unfold rows. rewrite length_map. reflexivity. }
  rewrite Hlen, Hrows, length_map, length_firstn, length_skipn. lia.
Qed.

Lemma parse_events_single_witness :
  exists out,
    snd (parse_events one_event (of_rows (rows three_windows))) = Ok out /\
    rows out
    = map (fun w => {| win := w; event := Str "E" |})
          (firstn (1 - 0) (skipn 1 (rows three_windows))) /\
    length out = 1 - 0.
Proof.
  apply (@parse_events_single (rows three_windows)
           {| eye_sample := 90; duration_sec := 3 # 100; EVENT := Str "E" |}
           90%Q 0 120%Q 1).
  - discriminate.
  - reflexivity.
  - reflexivity.
  - reflexivity.
Defined.

End AlignerMore.

(** ** More on the gaze file loader *)

Section LoaderMore.
Import Frame Loader.
Local Open Scope string_scope.
Local Open Scope nat_scope.

(** X13: the fixation filter keeps exactly the rows whose duration lies
    strictly between 40 and 1000, under the labels they had; a duration of
    exactly 40 or 1000 goes; and filtering twice is filtering once. *)
Theorem fixation_filter_bounds all_fix :
  (forall k r,
     In (k, r) (fixation_filter all_fix) <->
     In (k, r) all_fix /\
     (40 < fix_duration r)%Q /\ (fix_duration r < 1000)%Q) /\
  (forall k r,
     In (k, r) all_fix ->
     (fix_duration r == 40)%Q \/ (fix_duration r == 1000)%Q ->
     ~ In (k, r) (fixation_filter all_fix)) /\
  fixation_filter (fixation_filter all_fix) = fixation_filter all_fix.
Proof.
  split; [|split].
  - intros k r. apply fixation_filter_keeps.
  - intros k r _ Hd Hin. apply fixation_filter_keeps in Hin.
    destruct Hin as (_ & H1 & H2). destruct Hd as [Hd|Hd]; rewrite Hd in *.
    + discriminate H1.
    + discriminate H2.
  - unfold fixation_filter.
    rewrite !(select_mask_and (fun r => Qltb 40 (fix_duration r))
                              (fun r => Qltb (fix_duration r) 1000)).
    induction all_fix as [|[k r] t IH]; simpl; [reflexivity|].
    destruct (Qltb 40 (fix_duration r) && Qltb (fix_duration r) 1000) eqn:E;
      simpl; [rewrite E; f_equal|]; exact IH.
Qed.

Lemma fixation_filter_bounds_witness :
  In (1%Z, {| fix_eye := Str "R"; fix_tStart := 50; fix_duration := 200;
              fix_other := [] |})
     (fixation_filter three_fixations).
Proof.
  apply (proj1 (fixation_filter_bounds three_fixations)).
  split; [|split].
  - right. left. reflexivity.
  - reflexivity.
  - reflexivity.
Defined.

(** *** What the sort and dedup step gives *)

Section Output.
Context {R : Type} {F : Family R}.

Lemma take_In indexer (t : frame R) r : In r (take indexer t) -> In r t.
Proof.
  unfold take. rewrite in_flat_map. intros (i & _ & Hi).
  destruct (nth_error t i) as [x|] eqn:E; [|contradiction].
  destruct Hi as [<-|[]]. exact (nth_error_In _ _ E).
Qed.

Lemma drop_duplicates_from_In seen (t : frame R) r :
  In r (drop_duplicates_from seen t) -> In r t.
Proof.
  revert seen. induction t as [|x t IH]; intros seen; simpl; [auto|].
  destruct (existsb (row_eqb (snd x)) seen).
  - intros H. right. exact (IH _ H).
  - intros [<-|H]; [left; reflexivity | right; exact (IH _ H)].
Qed.

Lemma drop_duplicates_from_length seen (t : frame R) :
  length (drop_duplicates_from seen t) <= length t.
Proof.
  revert seen. induction t as [|x t IH]; intros seen; simpl; [lia|].
  destruct (existsb (row_eqb (snd x)) seen); simpl;
    specialize (IH (snd x :: seen)); lia.
Qed.

Lemma drop_duplicates_from_sorted (rel : Z * R -> Z * R -> Prop) seen t :
  StronglySorted rel t -> StronglySorted rel (drop_duplicates_from seen t).
Proof.
  intros H. revert seen.
  induction H as [|x t Hs IH Hx]; intros seen; simpl; [constructor|].
  destruct (existsb (row_eqb (snd x)) seen); [apply IH|].
  constructor; [apply IH|].
  rewrite Forall_forall in *. intros y Hy. apply Hx.
  exact (drop_duplicates_from_In _ _ _ Hy).
Qed.

Lemma drop_duplicates_from_fresh seen (t : frame R) :
  (forall r s, In r (rows (drop_duplicates_from seen t)) -> In s seen ->
               row_eqb r s = false) /\
  ForallOrdPairs (fun earlier later => row_eqb later earlier = false)
                 (rows (drop_duplicates_from seen t)).
Proof.
  unfold rows. revert seen.
  induction t as [|x t IH]; intros seen; simpl.
  - split; [intros r s [] | constructor].
  - destruct (IH (snd x :: seen)) as [IH1 IH2].
    destruct (existsb (row_eqb (snd x)) seen) eqn:E.
    + split; [|exact IH2].
      intros r s Hr Hs. apply IH1; [exact Hr | right; exact Hs].
    + simpl. split.
      * intros r s [<-|Hr] Hs.
        -- destruct (row_eqb (snd x) s) eqn:Es; [|reflexivity].
           assert (existsb (row_eqb (snd x)) seen = true)
             by (apply existsb_exists; eauto).
           congruence.
        -- apply IH1; [exact Hr | right; exact Hs].
      * constructor; [|exact IH2].
        apply Forall_forall. intros r Hr.
        apply IH1; [exact Hr | left; reflexivity].
Qed.

Lemma take_keys (key : R -> Q) (t : frame R) indexer :
  (forall i, In i indexer -> i < length t) ->
  map (fun r => key (snd r)) (take indexer t)
  = map (Locator.at_ (map (fun r => key (snd r)) t)) indexer.
Proof.
  intros Hin. unfold take.
  induction indexer as [|i p IH]; simpl; [reflexivity|].
  rewrite map_app, IH by (intros j Hj; apply Hin; right; exact Hj).
  f_equal.
  destruct (nth_error t i) as [x|] eqn:E.
  - simpl. f_equal. unfold Locator.at_.
    symmetry. apply nth_error_nth.
    rewrite nth_error_map, E. reflexivity.
  - apply nth_error_None in E. specialize (Hin i (or_introl eq_refl)). lia.
Qed.

Lemma strongly_sorted_map {A B} (f : A -> B) (rel : B -> B -> Prop) l :
  StronglySorted (fun a b => rel (f a) (f b)) l <->
  StronglySorted rel (map f l).
Proof.
  induction l as [|a l IH]; simpl.
  - split; constructor.
  - split; intros H; inversion H as [|? ? Hs Ha]; subst;
      (constructor; [apply IH; exact Hs|]).
    + rewrite Forall_map. exact Ha.
    + rewrite Forall_map in Ha. exact Ha.
Qed.

Lemma strongly_sorted_nondecreasing keys :
  StronglySorted Qle keys -> nondecreasing keys.
Proof.
  unfold nondecreasing, Locator.at_.
  induction 1 as [|x keys Hs IH Hx]; intros i j Hij Hj; simpl in Hj; [lia|].
  destruct j as [|j].
  - assert (i = 0) by lia. subst. apply Qle_refl.
  - destruct i as [|i]; simpl.
    + rewrite Forall_forall in Hx. apply Hx. apply nth_In. lia.
    + apply IH; lia.
Qed.

Lemma sort_dedup_rows argsort event_type (t out : frame R) :
  sort_dedup argsort event_type t = Ok out ->
  forall r, In r (rows out) -> In r (rows t).
Proof.
  unfold sort_dedup, sort_values.
  destruct (column _) as [key|]; simpl; [|discriminate].
  intros H. inversion H; subst out; clear H.
  unfold reset_index. rewrite rows_of_rows.
  unfold rows. intros r Hr. apply in_map_iff in Hr.
  destruct Hr as (x & <- & Hx). apply in_map.
  apply drop_duplicates_from_In in Hx. exact (take_In _ _ _ Hx).
Qed.

(** X14: what the sort and dedup step of [load_and_filter] returns, for
    every sort of numpy: a table under the default index, without two
    equal rows, whose time column does not go down, and whose rows are
    rows of the table given. *)
Theorem sort_dedup_output argsort event_type (key : R -> Q) (t out : frame R) :
  sorts argsort ->
  column (time_column event_type) = Some key ->
  sort_dedup argsort event_type t = Ok out ->
  range_indexed out /\
  dupfree out /\
  nondecreasing (map key (rows out)) /\
  (forall r, In r (rows out) -> In r (rows t)) /\
  length out <= length t.
Proof.
  intros Hsorts Hcol Hout.
  pose proof (sort_dedup_rows _ _ _ Hout) as Hrows.
  unfold sort_dedup, sort_values in Hout.
  change (if negb (event_type =? "Sample")%string then "tStart"%string
          else "tSample"%string) with (time_column event_type) in Hout.
  rewrite Hcol in Hout. cbn [bind] in Hout.
  inversion Hout; subst out; clear Hout.
  set (keys := map (fun r : Z * R => key (snd r)) t) in *.
  destruct (Hsorts keys) as [HP HS].
  assert (Hlt : forall i, In i (argsort keys) -> i < length t).
  { intros i Hi. apply (Permutation_in _ HP), in_seq in Hi.
    unfold keys in Hi. rewrite length_map in Hi. lia. }
  set (sorted := take (argsort keys) t) in *.
  assert (Hsorted : StronglySorted
                      (fun a b : Z * R => (key (snd a) <= key (snd b))%Q)
                      sorted).
  { apply (proj2 (strongly_sorted_map (fun r : Z * R => key (snd r)) Qle
                                        sorted)).
    unfold sorted. rewrite (take_keys key t _ Hlt). fold keys.
    apply (proj1 (strongly_sorted_map (Locator.at_ keys) Qle (argsort keys))).
    exact HS. }
  assert (Hlen : length sorted = length t).
  { assert (H : length (map (fun r : Z * R => key (snd r)) sorted)
                = length (argsort keys)).
    { unfold sorted. rewrite (take_keys key t _ Hlt). apply length_map. }
    rewrite length_map in H. rewrite H, (Permutation_length HP), length_seq.
    unfold keys. apply length_map. }
  assert (Hrows' : forall r, In r (rows (drop_duplicates sorted)) ->
                             In r (rows t)).
  { intros r Hr. apply Hrows. unfold reset_index. rewrite rows_of_rows.
    exact Hr. }
  clear Hrows.
  unfold reset_index, range_indexed, dupfree.
  rewrite labels_of_rows, length_of_rows, rows_of_rows.
  split; [reflexivity|].
  split; [apply (drop_duplicates_from_fresh [] sorted)|].
  split.
  { apply strongly_sorted_nondecreasing.
    unfold rows. rewrite map_map.
    apply (proj1 (strongly_sorted_map (fun r : Z * R => key (snd r)) Qle
                                        (drop_duplicates sorted))).
    apply drop_duplicates_from_sorted. exact Hsorted. }
  split; [exact Hrows'|].
  unfold rows. rewrite length_map, <- Hlen.
  apply drop_duplicates_from_length.
Qed.

End Output.

Lemma sort_dedup_output_witness :
  range_indexed three_blinks /\
  dupfree three_blinks /\
  nondecreasing (map blink_tStart (rows three_blinks)) /\
  (forall r, In r (rows three_blinks) -> In r (rows shuffled_blinks)) /\
  length three_blinks <= length shuffled_blinks.
Proof.
  apply (@sort_dedup_output blink blink_family insertion_argsort "Blink"
           blink_tStart shuffled_blinks three_blinks).
  - exact insertion_argsort_sorts.
  - reflexivity.
  - reflexivity.
Defined.

End LoaderMore.

(** ** More on the files of a family *)

Section LoaderFiles.
Import Frame Loader.
Local Open Scope string_scope.
Local Open Scope nat_scope.

Section OneFamily.
Context {R : Type} {F : Family R}.
Variable argsort : list Q -> list nat.
Variable read_csv : string -> result (csv R).

Lemma read_right_eye_ok f c :
  read_csv f = Ok c ->
  read_right_eye read_csv f
  = Ok (if has_eye c
        then filter (fun r => cell_eqb (eye r) (Str "R")) (body c)
        else body c).
Proof.
  intros H. unfold read_right_eye. rewrite H. simpl.
  destruct (has_eye c); reflexivity.
Qed.

Lemma read_right_eye_raises f e :
  read_csv f = Raise e -> read_right_eye read_csv f = Raise e.
Proof. intros H. unfold read_right_eye. rewrite H. reflexivity. Qed.

Lemma read_right_eye_is_ok f :
  is_ok (read_right_eye read_csv f) = is_ok (read_csv f).
Proof.
  destruct (read_csv f) as [c|e] eqn:E.
  - rewrite (@read_right_eye_ok _ _ E). reflexivity.
  - rewrite (@read_right_eye_raises _ _ E). reflexivity.
Qed.

Lemma for_each_first_raise {A B} (g : A -> result B) pre x post e :
  (forall y, In y pre -> is_ok (g y) = true) ->
  g x = Raise e ->
  for_each g (pre ++ x :: post)%list = Raise e.
Proof.
  intros Hpre Hx. induction pre as [|y pre IH]; simpl.
  - rewrite Hx. reflexivity.
  - pose proof (Hpre y (or_introl eq_refl)) as Hy.
    destruct (g y); [|discriminate]. simpl.
    rewrite IH by (intros z Hz; apply Hpre; right; exact Hz). reflexivity.
Qed.

Lemma for_each_is_ok {A B} (g : A -> result B) xs :
  is_ok (for_each g xs) = forallb (fun x => is_ok (g x)) xs.
Proof.
  induction xs as [|x xs IH]; simpl; [reflexivity|].
  destruct (g x); simpl; [|reflexivity].
  rewrite <- IH. destruct (for_each g xs); reflexivity.
Qed.

Lemma for_each_length {A B} (g : A -> result B) xs ys :
  for_each g xs = Ok ys -> length ys = length xs.
Proof.
  revert ys. induction xs as [|x xs IH]; intros ys; simpl.
  - intros H. inversion H. reflexivity.
  - destruct (g x); simpl; [|discriminate].
    destruct (for_each g xs) as [bs|]; simpl; [|discriminate].
    intros H. inversion H. simpl. f_equal. apply IH. reflexivity.
Qed.

(** X15: when [load_and_filter] returns.  It returns exactly when there is
    at least one file, every file can be read, and the family has the time
    column the event type asks for; and the first file that cannot be read
    decides the exception. *)
Theorem load_and_filter_returns files event_type :
  (is_ok (load_and_filter argsort read_csv files event_type) = true <->
   files <> [] /\
   (forall f, In f files -> is_ok (read_csv f) = true) /\
   column (time_column event_type) <> None) /\
  (forall pre f post e,
     files = (pre ++ f :: post)%list ->
     (forall g, In g pre -> is_ok (read_csv g) = true) ->
     read_csv f = Raise e ->
     load_and_filter argsort read_csv files event_type = Raise e).
Proof.
  split.
  - unfold load_and_filter.
    pose proof (for_each_is_ok (read_right_eye read_csv) files) as Hok.
    destruct (for_each (read_right_eye read_csv) files) as [tables|e] eqn:E.
    + pose proof (@for_each_length _ _ _ _ _ E) as Hlen.
      assert (Hall : forall f, In f files -> is_ok (read_csv f) = true).
      { intros f Hf. simpl in Hok. symmetry in Hok.
        rewrite forallb_forall in Hok. rewrite <- read_right_eye_is_ok.
        apply Hok. exact Hf. }
      cbn [bind]. destruct tables as [|t tables].
      * destruct files; [|discriminate]. simpl.
        split; [discriminate | intros (H & _); congruence].
      * cbn [concat bind]. unfold sort_dedup, sort_values.
        change (if negb (event_type =? "Sample")%string then "tStart"%string
                else "tSample"%string) with (time_column event_type).
        destruct (column (time_column event_type)) as [key|]; simpl.
        -- split; [|reflexivity]. intros _.
           split; [destruct files; [discriminate Hlen | discriminate]|].
           split; [exact Hall | discriminate].
        -- split; [discriminate | intros (_ & _ & H); congruence].
    + cbn [bind]. simpl in Hok. split; [discriminate|].
      intros (_ & Hall & _). symmetry in Hok.
      apply not_true_iff_false in Hok. exfalso. apply Hok.
      apply forallb_forall. intros f Hf. rewrite read_right_eye_is_ok.
      apply Hall. exact Hf.
  - intros pre f post e -> Hpre Hf. unfold load_and_filter.
    rewrite (@for_each_first_raise _ _ (read_right_eye read_csv) pre f post e).
    + reflexivity.
    + intros g Hg. rewrite read_right_eye_is_ok. apply Hpre. exact Hg.
    + apply read_right_eye_raises. exact Hf.
Qed.

Lemma concat_In (tables : list (list R)) all_data r :
  concat tables = Ok all_data -> In r (rows all_data) ->
  exists t, In t tables /\ In r t.
Proof.
  unfold concat. destruct tables as [|t0 tables]; [discriminate|].
  intros H. inversion H; subst all_data; clear H.
  rewrite rows_of_rows. intros Hr.
  change (In r (List.concat (t0 :: tables))) in Hr. apply in_concat in Hr.
  destruct Hr as (t & Ht & Hr). exists t. auto.
Qed.

Lemma Forall2_In_r {A B} (P : A -> B -> Prop) xs ys y :
  Forall2 P xs ys -> In y ys -> exists x, In x xs /\ P x y.
Proof.
  induction 1 as [|x y' xs ys Hxy _ IH]; intros Hy; [contradiction|].
  destruct Hy as [<-|Hy].
  - exists x. split; [left; reflexivity | exact Hxy].
  - destruct (IH Hy) as (x' & Hx' & HP). exists x'. split; [right|]; assumption.
Qed.

(** X16: where the rows of the table [load_and_filter] returns come from.
    Each of them is a row of one of the files read; and when that file has
    an [eye] column, the row is of the right eye. *)
Theorem load_and_filter_rows files event_type out :
  load_and_filter argsort read_csv files event_type = Ok out ->
  forall r, In r (rows out) ->
    exists f c,
      In f files /\ read_csv f = Ok c /\ In r (body c) /\
      (has_eye c = true -> eye r = Str "R").
Proof.
  unfold load_and_filter. intros H r Hr.
  destruct (for_each (read_right_eye read_csv) files) as [tables|] eqn:E;
    [|discriminate].
  cbn [bind] in H.
  destruct (concat tables) as [all_data|] eqn:Ec; [|discriminate].
  cbn [bind] in H.
  pose proof (@sort_dedup_rows _ _ _ _ _ _ H r Hr) as Hall.
  destruct (@concat_In _ _ _ Ec Hall) as (t & Ht & Hrt).
  apply for_each_ok in E.
  destruct (@Forall2_In_r _ _ _ _ _ _ E Ht) as (f & Hf & Hread).
  destruct (read_csv f) as [c|e] eqn:Rf.
  - exists f, c. rewrite (@read_right_eye_ok _ _ Rf) in Hread.
    inversion Hread; subst t; clear Hread.
    split; [exact Hf|]. split; [exact Rf|].
    destruct (has_eye c).
    + apply filter_In in Hrt. destruct Hrt as [Hin Heye].
      split; [exact Hin|]. intros _.
      destruct (eye r) as [q|s|]; simpl in Heye; try discriminate.
      apply String.eqb_eq in Heye. congruence.
    + split; [exact Hrt | discriminate].
  - rewrite (@read_right_eye_raises _ _ Rf) in Hread. discriminate.
Qed.

End OneFamily.

Lemma load_and_filter_returns_witness :
  load_and_filter insertion_argsort two_eye_blinks
                  ["a_Blink.csv"; "bad_Blink.csv"; "c_Blink.csv"] "Blink"
  = Raise ReadError.
Proof.
  apply (proj2 (@load_and_filter_returns blink blink_family insertion_argsort
                  two_eye_blinks
                  ["a_Blink.csv"; "bad_Blink.csv"; "c_Blink.csv"] "Blink")
               ["a_Blink.csv"] "bad_Blink.csv" ["c_Blink.csv"] ReadError).
  - reflexivity.
  - intros g [<-|[]]. reflexivity.
  - reflexivity.
Defined.

Lemma load_and_filter_rows_witness :
  exists f c,
    In f ["a_Blink.csv"; "c_Blink.csv"] /\ two_eye_blinks f = Ok c /\
    In {| blink_eye := Str "R"; blink_tStart := 20; blink_other := [] |}
       (body c) /\
    (has_eye c = true ->
     eye {| blink_eye := Str "R"; blink_tStart := 20; blink_other := [] |}
     = Str "R").
Proof.
  apply (@load_and_filter_rows blink blink_family insertion_argsort
           two_eye_blinks ["a_Blink.csv"; "c_Blink.csv"] "Blink"
           (of_rows [ {| blink_eye := Str "R"; blink_tStart := 20;
                         blink_other := [] |} ])).
  - reflexivity.
  - left. reflexivity.
Defined.

(** *** The file names of a family *)

Lemma substring_append_skip a b n m :
  substring (String.length a + n) m (a ++ b) = substring n m b.
Proof. induction a as [|c a IH]; simpl; [reflexivity | exact IH]. Qed.

Lemma ends_with_spec suffix name :
  ends_with suffix name = true <-> exists stem, name = stem ++ suffix.
Proof.
  unfold ends_with. rewrite andb_true_iff, Nat.leb_le, String.eqb_eq. split.
  - intros [Hle Hsub].
    destruct (@substring_to_end (String.length name - String.length suffix)
                (String.length suffix) name) as (pre & Hname & _); [lia|].
    exists pre. rewrite Hsub in Hname. exact Hname.
  - intros (stem & ->). rewrite length_append. split; [lia|].
    replace (String.length stem + String.length suffix - String.length suffix)
      with (String.length stem + 0) by lia.
    rewrite substring_append_skip. apply substring_0_all. lia.
Qed.

Lemma ends_with_append s stem t :
  String.length s <= String.length t ->
  ends_with s (stem ++ t) = ends_with s t.
Proof.
  intros Hle. unfold ends_with. rewrite length_append.
  replace (String.length stem + String.length t - String.length s)
    with (String.length stem + (String.length t - String.length s)) by lia.
  rewrite substring_append_skip.
  assert (H1 : (String.length s <=? String.length stem + String.length t)
               = true) by (apply Nat.leb_le; lia).
  assert (H2 : (String.length s <=? String.length t) = true)
    by (apply Nat.leb_le; lia).
  rewrite H1, H2. reflexivity.
Qed.

Lemma glob_star_In suffix d name :
  In name (glob_star suffix d) <->
  In name (listing d) /\ String.prefix "." name = false /\
  ends_with suffix name = true.
Proof.
  unfold glob_star. rewrite filter_In, andb_true_iff, negb_true_iff. tauto.
Qed.

(** X17: which names a pattern of [load_gaze_files] picks up, and that no
    name is picked up twice.  A name is globbed for a suffix exactly when it
    is in the directory, does not start with a dot and ends with the
    suffix; and no name ends with two of the four suffixes, so that no
    file is read into two families. *)
Theorem glob_star_families d :
  (forall suffix name,
     In name (glob_star suffix d) <->
     In name (listing d) /\ String.prefix "." name = false /\
     exists stem, name = stem ++ suffix) /\
  (forall s1 s2 name,
     In s1 family_suffixes -> In s2 family_suffixes ->
     In name (glob_star s1 d) -> In name (glob_star s2 d) -> s1 = s2).
Proof.
  split.
  - intros suffix name. rewrite glob_star_In, ends_with_spec. tauto.
  - intros s1 s2 name H1 H2 G1 G2.
    apply glob_star_In in G1. destruct G1 as (_ & _ & E1).
    apply glob_star_In in G2. destruct G2 as (_ & _ & E2).
    pose proof E1 as S1. apply ends_with_spec in S1. destruct S1 as (m1 & N1).
    pose proof E2 as S2. apply ends_with_spec in S2. destruct S2 as (m2 & N2).
    unfold family_suffixes in H1, H2. simpl in H1, H2.
    destruct H1 as [<-|[<-|[<-|[<-|[]]]]];
      destruct H2 as [<-|[<-|[<-|[<-|[]]]]];
      try reflexivity; exfalso;
      first [ rewrite N1 in E2; rewrite ends_with_append in E2 by (simpl; lia);
              discriminate E2
            | rewrite N2 in E1; rewrite ends_with_append in E1 by (simpl; lia);
              discriminate E1 ].
Qed.

Lemma glob_star_families_witness :
  "_Sample.csv" = "_Sample.csv".
Proof.
  apply (proj2 (glob_star_families directory_without_blinks)
               "_Sample.csv" "_Sample.csv" "s01_Sample.csv").
  - simpl. auto.
  - simpl. auto.
  - simpl. auto.
  - simpl. auto.
Defined.

End LoaderFiles.

(** ** More on the pupil size column *)

Section PupilMore.
Import Frame Loader.
Local Open Scope nat_scope.

Lemma next_valid_In l y :
  In (Some y) l -> exists k z, next_valid l = Some (k, z).
Proof.
  induction l as [|[z|] t IH]; intros H; simpl.
  - contradiction.
  - eauto.
  - destruct H as [H|H]; [discriminate|].
    destruct (IH H) as (k & z & ->). eauto.
Qed.

Lemma interpolate_from_filled prev l :
  prev <> None \/ (exists y, In (Some y) l) ->
  Forall (fun v => v <> None) (interpolate_from prev l).
Proof.
  revert prev. induction l as [|[z|] t IH]; intros prev H; simpl.
  - constructor.
  - constructor; [discriminate|]. apply IH. left. discriminate.
  - constructor.
    + destruct prev as [[d a]|].
      * destruct (next_valid t) as [[k b]|]; discriminate.
      * destruct H as [H|(y & [H|H])]; [congruence | discriminate |].
        destruct (next_valid_In _ _ H) as (k & b & ->). discriminate.
    + apply IH. destruct prev as [[d a]|].
      * left. discriminate.
      * right. destruct H as [H|(y & [H|H])];
          [congruence | discriminate | eauto].
Qed.

Lemma next_valid_none n : next_valid (repeat None n) = None.
Proof.
  induction n as [|n IH]; simpl; [reflexivity|]. rewrite IH. reflexivity.
Qed.

Lemma interpolate_from_none n :
  interpolate_from None (repeat None n) = repeat None n.
Proof.
  induction n as [|n IH]; simpl; [reflexivity|].
  rewrite IH, next_valid_none. reflexivity.
Qed.

Lemma interpolate_from_trailing d a n :
  interpolate_from (Some (d, a)) (repeat None n) = repeat (Some a) n.
Proof.
  revert d. induction n as [|n IH]; intros d; simpl; [reflexivity|].
  rewrite next_valid_none, IH. reflexivity.
Qed.

Lemma nth_error_repeat {A} (x : A) n i :
  i < n -> nth_error (repeat x n) i = Some x.
Proof.
  revert i. induction n as [|n IH]; intros [|i] H; simpl; try lia;
    [reflexivity|]. apply IH. lia.
Qed.

(** X18: how far the gaps of the pupil column are filled.  When some row
    has a reading, no row is left without a pupil size; when no row has
    one, every row stays without; and the rows after the last reading take
    that reading. *)
Theorem pupil_column_gaps rs :
  ((exists r, In r rs /\ ~ (smaller_pupil r == 0)%Q) ->
   Forall (fun v => v <> None) (pupil_column rs)) /\
  (Forall (fun r => (smaller_pupil r == 0)%Q) rs ->
   pupil_column rs = repeat None (length rs)) /\
  (forall before r zeros i,
     rs = before ++ r :: zeros ->
     ~ (smaller_pupil r == 0)%Q ->
     Forall (fun z => (smaller_pupil z == 0)%Q) zeros ->
     length before <= i < length rs ->
     nth_error (pupil_column rs) i = Some (Some (smaller_pupil r))).
Proof.
  split; [|split].
  - intros (r & Hin & Hr). unfold pupil_column, interpolate.
    apply interpolate_from_filled. right. exists (smaller_pupil r).
    rewrite <- (zero_to_nan_some Hr).
    apply in_map. apply in_map. exact Hin.
  - intros Hz. unfold pupil_column, interpolate.
    rewrite zero_to_nan_zeros by exact Hz. apply interpolate_from_none.
  - intros before r zeros i -> Hr Hz Hi.
    rewrite length_app in Hi. simpl in Hi.
    unfold pupil_column, interpolate. rewrite !map_app. cbn [map].
    rewrite (zero_to_nan_some Hr), (zero_to_nan_zeros Hz).
    destruct (interpolate_from_app None
                (map zero_to_nan (map smaller_pupil before))
                (smaller_pupil r) (repeat None (length zeros)))
      as (filled & Hlen & Heq).
    rewrite Heq, interpolate_from_trailing. rewrite !length_map in Hlen.
    rewrite nth_error_app2 by lia. rewrite Hlen.
    destruct (i - length before) as [|k] eqn:Ek; [reflexivity|].
    simpl. apply nth_error_repeat. lia.
Qed.

Lemma pupil_column_gaps_witness :
  nth_error (pupil_column ([sample_of 0 3] ++ sample_of 4 5 :: [sample_of 0 7]))
            2
  = Some (Some (smaller_pupil (sample_of 4 5))).
Proof.
  apply (proj2 (proj2 (pupil_column_gaps
                         ([sample_of 0 3] ++ sample_of 4 5 :: [sample_of 0 7])))
               [sample_of 0 3] (sample_of 4 5) [sample_of 0 7] 2).
  - reflexivity.
  - discriminate.
  - repeat constructor.
  - simpl. lia.
Defined.

(** *** Between two readings *)

Lemma Qnat_pos n : (0 < Qnat (S n))%Q.
Proof. unfold Qnat, Qlt. simpl. lia. Qed.

Lemma Qnat_le n m : n <= m -> (Qnat n <= Qnat m)%Q.
Proof. intros H. unfold Qnat. rewrite <- Zle_Qle. lia. Qed.

Lemma interpolate_from_run n : forall d a b post i,
  i < n ->
  exists v,
    nth_error (interpolate_from (Some (d, a)) (repeat None n ++ Some b :: post))
              i = Some (Some v) /\
    (v == (b - a) / Qnat (d + n) * Qnat (d + i) + a)%Q.
Proof.
  induction n as [|n IH]; intros d a b post i Hi; [lia|].
  cbn [repeat app interpolate_from]. rewrite next_valid_leading.
  destruct i as [|i].
  - eexists. split; [reflexivity|].
    replace (d + 0) with d by lia. reflexivity.
  - destruct (IH (S d) a b post i) as (v & Hv & Heq); [lia|].
    exists v. split; [exact Hv|].
    replace (d + S n) with (S d + n) by lia.
    replace (d + S i) with (S d + i) by lia. exact Heq.
Qed.

Lemma between_fraction (a b m n : Q) :
  (0 <= m)%Q -> (m <= n)%Q -> (0 < n)%Q ->
  ((a <= b -> a <= (b - a) / n * m + a /\ (b - a) / n * m + a <= b) /\
   (b <= a -> b <= (b - a) / n * m + a /\ (b - a) / n * m + a <= a))%Q.
Proof.
  intros Hm Hmn Hn.
  assert (Hfrac : ((b - a) / n * m == (b - a) * (m / n))%Q).
  { field. intros H. rewrite H in Hn. discriminate Hn. }
  assert (Ht0 : (0 <= m / n)%Q).
  { apply Qle_shift_div_l; [exact Hn | lra]. }
  assert (Ht1 : (m / n <= 1)%Q).
  { apply Qle_shift_div_r; [exact Hn | lra]. }
  rewrite Hfrac. set (t := (m / n)%Q) in *.
  split; intros Hab.
  - assert (H0 : (0 <= (b - a) * t)%Q) by (apply Qmult_le_0_compat; lra).
    assert (H1 : (0 <= (b - a) * (1 - t))%Q)
      by (apply Qmult_le_0_compat; lra).
    assert (H2 : ((b - a) * (1 - t) == (b - a) - (b - a) * t)%Q) by ring.
    lra.
  - assert (H0 : (0 <= (a - b) * t)%Q) by (apply Qmult_le_0_compat; lra).
    assert (H1 : (0 <= (a - b) * (1 - t))%Q)
      by (apply Qmult_le_0_compat; lra).
    assert (H2 : ((a - b) * (1 - t) == (a - b) - (a - b) * t)%Q) by ring.
    assert (H3 : ((a - b) * t == - ((b - a) * t))%Q) by ring.
    lra.
Qed.

(** X19: a run of rows without a reading between two readings is filled
    along the straight line between them, the rows counting as equally
    spaced: row number [i] of [n] gets the first reading plus [(i+1)/(n+1)]
    of the difference, and so a value that lies between the two
    readings. *)
Theorem pupil_column_linear before ra zeros rb after i :
  ~ (smaller_pupil ra == 0)%Q ->
  ~ (smaller_pupil rb == 0)%Q ->
  Forall (fun z => (smaller_pupil z == 0)%Q) zeros ->
  i < length zeros ->
  exists v,
    nth_error (pupil_column (before ++ ra :: zeros ++ rb :: after))
              (length before + 1 + i) = Some (Some v) /\
    (v == smaller_pupil ra
          + (smaller_pupil rb - smaller_pupil ra)
            * (Qnat (i + 1) / Qnat (length zeros + 1)))%Q /\
    (smaller_pupil ra <= smaller_pupil rb ->
     smaller_pupil ra <= v /\ v <= smaller_pupil rb)%Q /\
    (smaller_pupil rb <= smaller_pupil ra ->
     smaller_pupil rb <= v /\ v <= smaller_pupil ra)%Q.
Proof.
  intros Ha Hb Hz Hi.
  set (a := smaller_pupil ra) in *. set (b := smaller_pupil rb) in *.
  unfold pupil_column, interpolate. rewrite !map_app. cbn [map].
  rewrite !map_app. cbn [map].
  fold a b. rewrite (zero_to_nan_some Ha), (zero_to_nan_some Hb).
  rewrite (zero_to_nan_zeros Hz).
  destruct (interpolate_from_app None
              (map zero_to_nan (map smaller_pupil before)) a
              (repeat None (length zeros)
               ++ Some b :: map zero_to_nan (map smaller_pupil after)))
    as (filled & Hlen & Heq).
  rewrite Heq. rewrite !length_map in Hlen.
  rewrite nth_error_app2 by lia.
  replace (length before + 1 + i - length filled) with (S i) by lia.
  cbn [nth_error].
  destruct (@interpolate_from_run (length zeros) 1 a b
              (map zero_to_nan (map smaller_pupil after)) i Hi)
    as (v & Hv & Heqv).
  exists v. split; [exact Hv|].
  replace (i + 1) with (1 + i) by lia.
  replace (length zeros + 1) with (1 + length zeros) by lia.
  assert (Hn : (0 < Qnat (1 + length zeros))%Q) by apply Qnat_pos.
  assert (Hm : (0 <= Qnat (1 + i))%Q).
  { apply Qlt_le_weak. apply Qnat_pos. }
  assert (Hmn : (Qnat (1 + i) <= Qnat (1 + length zeros))%Q)
    by (apply Qnat_le; lia).
  destruct (between_fraction a b Hm Hmn Hn) as [Hup Hdown].
  split.
  { rewrite Heqv. field. intros H. rewrite H in Hn. discriminate Hn. }
  split; intros Hab; rewrite Heqv; [apply Hup | apply Hdown]; exact Hab.
Qed.

Lemma pupil_column_linear_witness :
  exists v,
    nth_error (pupil_column ([] ++ sample_of 4 5
                                :: [sample_of 0 3; sample_of 0 2; sample_of 9 0]
                                ++ sample_of 7 8 :: []))
              (@length sample [] + 1 + 1) = Some (Some v) /\
    (v == smaller_pupil (sample_of 4 5)
          + (smaller_pupil (sample_of 7 8) - smaller_pupil (sample_of 4 5))
            * (Qnat (1 + 1) / Qnat (3 + 1)))%Q /\
    (smaller_pupil (sample_of 4 5) <= smaller_pupil (sample_of 7 8) ->
     smaller_pupil (sample_of 4 5) <= v /\ v <= smaller_pupil (sample_of 7 8))%Q /\
    (smaller_pupil (sample_of 7 8) <= smaller_pupil (sample_of 4 5) ->
     smaller_pupil (sample_of 7 8) <= v /\ v <= smaller_pupil (sample_of 4 5))%Q.
Proof.
  apply (@pupil_column_linear [] (sample_of 4 5)
           [sample_of 0 3; sample_of 0 2; sample_of 9 0] (sample_of 7 8) [] 1).
  - discriminate.
  - discriminate.
  - repeat constructor.
  - simpl. lia.
Defined.

End PupilMore.

(** ** The event files *)

Section EventFacts.
Import Frame Loader Events.
Local Open Scope string_scope.
Local Open Scope nat_scope.

Lemma rows_select {A} (f : A -> bool) (t : frame A) :
  rows (select f t) = filter f (rows t).
Proof.
  unfold rows, select. induction t as [|[k r] t IH]; simpl; [reflexivity|].
  destruct (f r); simpl; rewrite IH; reflexivity.
Qed.

Lemma reset_index_select {A} (f : A -> bool) (t : frame A) :
  reset_index (select f t) = of_rows (filter f (rows t)).
Proof. unfold reset_index. rewrite rows_select. reflexivity. Qed.

Lemma filter_filter {A} (f g : A -> bool) (l : list A) :
  filter g (filter f l) = filter (fun x => f x && g x) l.
Proof.
  induction l as [|x l IH]; simpl; [reflexivity|].
  destruct (f x); simpl; [destruct (g x)|]; rewrite IH; reflexivity.
Qed.

Lemma rows_assign {A B C} (g : A -> B -> C) (idx : list Z) :
  forall (ls : list A) (col : list B),
    length idx = length ls ->
    map snd (map (fun rc : Z * A * B => (fst (fst rc), g (snd (fst rc)) (snd rc)))
                 (combine (combine idx ls) col))
    = map (fun lt => g (fst lt) (snd lt)) (combine ls col).
Proof.
  induction idx as [|k idx IH]; intros [|l ls] [|c col] H; simpl in *;
    try reflexivity; try discriminate.
  f_equal. apply IH. lia.
Qed.

Lemma tagged_rows c :
  rows (map (fun r : Z * event_line =>
               (fst r, {| line := snd r; TrialType := map_VAL (VAL (snd r)) |}))
            (assign_Text (of_rows (lines c))
                         (bfill (map Text (rows (of_rows (lines c)))))))
  = tagged_lines c.
Proof.
  rewrite rows_of_rows. unfold rows, assign_Text, of_rows, tagged_lines.
  rewrite map_map. cbn [snd fst].
  generalize (bfill (map Text (lines c))) as col.
  assert (Hlen : length (range_index (length (lines c))) = length (lines c)).
  { unfold range_index. rewrite length_map, length_seq. reflexivity. }
  revert Hlen. generalize (range_index (length (lines c))) as idx.
  generalize (lines c) as ls.
  induction ls as [|l ls IH]; intros [|k idx] Hlen [|t col]; simpl in *;
    try reflexivity; try discriminate.
  f_equal. apply IH. lia.
Qed.

(** What [load_events] returns when the file can be read. *)
Lemma load_events_ok read_csv data_path subject trial_type c :
  read_csv (events_path data_path subject) = Ok c ->
  load_events read_csv data_path subject trial_type
  = Ok (of_rows (filter (kept c trial_type) (tagged_lines c))).
Proof.
  intros H. unfold load_events. rewrite H. cbn [bind]. cbv zeta. f_equal.
  unfold kept. destruct (has_eye_sample c).
  - rewrite !reset_index_select, rows_of_rows, tagged_rows, filter_filter.
    reflexivity.
  - rewrite reset_index_select, tagged_rows.
    f_equal. apply filter_ext. intros r. cbn [negb orb].
    rewrite andb_true_r. reflexivity.
Qed.

Lemma load_events_raises read_csv data_path subject trial_type e :
  read_csv (events_path data_path subject) = Raise e ->
  load_events read_csv data_path subject trial_type = Raise e.
Proof. intros H. unfold load_events. rewrite H. reflexivity. Qed.

Lemma of_rows_range_indexed {A} (rs : list A) : range_indexed (of_rows rs).
Proof.
  unfold range_indexed. rewrite labels_of_rows, length_of_rows. reflexivity.
Qed.

Lemma map_VAL_reading_sham v s :
  map_VAL v = Str s ->
  exists q, v = Num q /\
            ((s = "reading" /\ (q == 7)%Q) \/ (s = "sham" /\ (q == 20)%Q)).
Proof.
  destruct v as [q|t|]; simpl; try discriminate.
  destruct (Qeq_bool q 7) eqn:E7; [|destruct (Qeq_bool q 20) eqn:E20];
    intros H; inversion H; subst; exists q; split; try reflexivity.
  - left. split; [reflexivity | apply Qeq_bool_iff; exact E7].
  - right. split; [reflexivity | apply Qeq_bool_iff; exact E20].
Qed.

Lemma series_eq_Str c s : series_eq c (Str s) = true <-> c = Str s.
Proof.
  destruct c as [q|t|]; simpl; split; try discriminate.
  - intros H. apply String.eqb_eq in H. congruence.
  - intros H. inversion H. apply String.eqb_refl.
Qed.

(** *** Where the text of a row comes from *)

Lemma bfill_head col : hd NaN (bfill col) = first_valid col.
Proof.
  induction col as [|c col IH]; simpl; [reflexivity|].
  destruct c as [q|s|]; simpl; try reflexivity.
  rewrite <- IH. destruct (bfill col); reflexivity.
Qed.

Lemma length_bfill col : length (bfill col) = length col.
Proof. induction col as [|c col IH]; simpl; congruence. Qed.

Lemma bfill_nth col i :
  i < length col ->
  nth_error (bfill col) i = Some (first_valid (skipn i col)).
Proof.
  revert i. induction col as [|c col IH]; intros i Hi; simpl in Hi; [lia|].
  destruct i as [|i].
  - pose proof (bfill_head (c :: col)) as H.
    destruct (bfill (c :: col)) as [|x t] eqn:E; [discriminate E|].
    simpl in H. simpl. congruence.
  - cbn [bfill nth_error skipn]. apply IH. lia.
Qed.

Lemma tagged_lines_nth c i :
  nth_error (tagged_lines c) i
  = option_map (fun l => {| line := set_Text l
                               (first_valid (map Text (skipn i (lines c))));
                            TrialType := map_VAL (VAL l) |})
               (nth_error (lines c) i).
Proof.
  unfold tagged_lines. rewrite nth_error_map.
  destruct (nth_error (lines c) i) as [l|] eqn:El.
  - assert (Hi : i < length (lines c)) by (apply nth_error_Some; congruence).
    assert (Hc : nth_error (combine (lines c) (bfill (map Text (lines c)))) i
                 = Some (l, first_valid (map Text (skipn i (lines c))))).
    { pose proof (@bfill_nth (map Text (lines c)) i) as Hb.
      rewrite length_map in Hb. specialize (Hb Hi).
      rewrite skipn_map in Hb.
      revert El Hb. generalize (bfill (map Text (lines c))) as col.
      generalize (first_valid (map Text (skipn i (lines c)))) as v.
      generalize (lines c) as ls. clear.
      intros ls v col. revert ls col.
      induction i as [|i IH]; intros [|x ls] [|y col] El Hb; simpl in *;
        try discriminate.
      - congruence.
      - apply IH; assumption. }
    rewrite Hc. reflexivity.
  - apply nth_error_None in El.
    assert (H : nth_error (combine (lines c) (bfill (map Text (lines c)))) i
                = None).
    { apply nth_error_None. rewrite length_combine. lia. }
    rewrite H. reflexivity.
Qed.

Lemma first_valid_present c rest : c <> NaN -> first_valid (c :: rest) = c.
Proof. destruct c; simpl; congruence. Qed.

(** X20: the rows [load_events] returns.  A file that cannot be read ends
    the call with the exception of the reader.  Otherwise the table comes
    under the default index; each of its rows is of the trial type asked
    for, with [VAL] 7 for reading and 20 for sham, and has an eye sample
    when the file has that column; and a trial type other than the two
    gives a table without rows. *)
Theorem load_events_rows read_csv data_path subject trial_type :
  (forall e,
     read_csv (events_path data_path subject) = Raise e ->
     load_events read_csv data_path subject trial_type = Raise e) /\
  (forall c,
     read_csv (events_path data_path subject) = Ok c ->
     exists out,
       load_events read_csv data_path subject trial_type = Ok out /\
       range_indexed out /\
       (forall r, In r (rows out) ->
          TrialType r = Str trial_type /\
          (exists q, VAL (line r) = Num q /\
                     ((trial_type = "reading" /\ (q == 7)%Q) \/
                      (trial_type = "sham" /\ (q == 20)%Q))) /\
          (has_eye_sample c = true -> eye_sample (line r) <> NaN)) /\
       (trial_type <> "reading" -> trial_type <> "sham" -> out = [])).
Proof.
  split; [intros e; apply load_events_raises|].
  intros c Hc. eexists. split; [apply load_events_ok; exact Hc|].
  split; [apply of_rows_range_indexed|].
  assert (Hrow : forall r, In r (filter (kept c trial_type) (tagged_lines c)) ->
            TrialType r = Str trial_type /\
            (exists q, VAL (line r) = Num q /\
                       ((trial_type = "reading" /\ (q == 7)%Q) \/
                        (trial_type = "sham" /\ (q == 20)%Q))) /\
            (has_eye_sample c = true -> eye_sample (line r) <> NaN)).
  { intros r Hr. apply filter_In in Hr. destruct Hr as [Hin Hk].
    unfold kept in Hk. apply andb_true_iff in Hk. destruct Hk as [Ht He].
    apply series_eq_Str in Ht.
    apply In_nth_error in Hin. destruct Hin as (i & Hi).
    rewrite tagged_lines_nth in Hi.
    destruct (nth_error (lines c) i) as [l|]; [|discriminate].
    simpl in Hi. inversion Hi; subst r; clear Hi. cbn [TrialType line] in *.
    split; [exact Ht|]. split.
    - apply map_VAL_reading_sham in Ht. exact Ht.
    - intros Hhas. rewrite Hhas in He. simpl in He. simpl.
      destruct (eye_sample l); simpl in *; congruence. }
  split.
  - intros r Hr. rewrite rows_of_rows in Hr. exact (Hrow r Hr).
  - intros Hr Hs.
    destruct (filter (kept c trial_type) (tagged_lines c)) as [|r rest] eqn:E;
      [reflexivity|].
    destruct (Hrow r (or_introl eq_refl)) as (_ & (q & _ & [[H _]|[H _]]) & _);
      congruence.
Qed.

Lemma load_events_rows_witness :
  exists out,
    load_events one_subject "data" "s01" "sham" = Ok out /\
    range_indexed out /\
    (forall r, In r (rows out) ->
       TrialType r = Str "sham" /\
       (exists q, VAL (line r) = Num q /\
                  (("sham" = "reading" /\ (q == 7)%Q) \/
                   ("sham" = "sham" /\ (q == 20)%Q))) /\
       (has_eye_sample five_lines = true -> eye_sample (line r) <> NaN)) /\
    ("sham" <> "reading" -> "sham" <> "sham" -> out = []).
Proof.
  apply (proj2 (load_events_rows one_subject "data" "s01" "sham") five_lines).
  reflexivity.
Defined.

(** X21: the text of a row.  Each row returned stands for a line of the
    file, with the columns of that line; its [Text] is the first text
    found from that line on in the file, lines of other trial types
    included, so it is the text of the line itself when the line has one,
    and it is missing only when no line from there on has a text. *)
Theorem load_events_text read_csv data_path subject trial_type c out :
  read_csv (events_path data_path subject) = Ok c ->
  load_events read_csv data_path subject trial_type = Ok out ->
  forall r, In r (rows out) ->
    exists i l,
      nth_error (lines c) i = Some l /\
      Text (line r) = first_valid (map Text (skipn i (lines c))) /\
      VAL (line r) = VAL l /\ PageNum (line r) = PageNum l /\
      eye_sample (line r) = eye_sample l /\ other (line r) = other l /\
      (Text l <> NaN -> Text (line r) = Text l) /\
      (Text (line r) = NaN ->
       forall l', In l' (skipn i (lines c)) -> Text l' = NaN).
Proof.
  intros Hc Hout r Hr.
  rewrite (load_events_ok _ _ _ trial_type Hc) in Hout.
  inversion Hout; subst out; clear Hout.
  rewrite rows_of_rows in Hr. apply filter_In in Hr. destruct Hr as [Hin _].
  apply In_nth_error in Hin. destruct Hin as (i & Hi).
  rewrite tagged_lines_nth in Hi.
  destruct (nth_error (lines c) i) as [l|] eqn:El; [|discriminate].
  simpl in Hi. inversion Hi; subst r; clear Hi.
  exists i, l. cbn [line set_Text Text VAL PageNum eye_sample other].
  split; [exact El|].
  repeat (split; [reflexivity|]).
  assert (Hskip : exists rest, skipn i (lines c) = l :: rest).
  { revert El. generalize (lines c) as ls. clear. intros ls. revert ls.
    induction i as [|i IH]; intros [|x ls] El; simpl in *; try discriminate.
    - inversion El. eauto.
    - apply IH. exact El. }
  destruct Hskip as (rest & Hskip). rewrite Hskip. split.
  - intros Hl. cbn [map]. apply first_valid_present. exact Hl.
  - generalize (l :: rest) as ls. clear. intros ls.
    induction ls as [|x ls IH]; intros Hv l' Hl'; [contradiction|].
    simpl in Hv. destruct (Text x) eqn:Ex; simpl in Hv; try discriminate.
    destruct Hl' as [<-|Hl']; [exact Ex | apply IH; assumption].
Qed.

Lemma load_events_text_witness :
  exists i l,
    nth_error (lines five_lines) i = Some l /\
    Text (line_of (Str "bias") (Num 20) (Num 1))
    = first_valid (map Text (skipn i (lines five_lines))) /\
    VAL (line_of (Str "bias") (Num 20) (Num 1)) = VAL l /\
    PageNum (line_of (Str "bias") (Num 20) (Num 1)) = PageNum l /\
    eye_sample (line_of (Str "bias") (Num 20) (Num 1)) = eye_sample l /\
    other (line_of (Str "bias") (Num 20) (Num 1)) = other l /\
    (Text l <> NaN -> Text (line_of (Str "bias") (Num 20) (Num 1)) = Text l) /\
    (Text (line_of (Str "bias") (Num 20) (Num 1)) = NaN ->
     forall l', In l' (skipn i (lines five_lines)) -> Text l' = NaN).
Proof.
  apply (@load_events_text one_subject "data" "s01" "sham" five_lines
           (of_rows [ {| line := line_of (Str "bias") (Num 20) (Num 1);
                         TrialType := Str "sham" |};
                      {| line := line_of (Str "validity") (Num 20) (Num 2);
                         TrialType := Str "sham" |} ])
           eq_refl eq_refl
           {| line := line_of (Str "bias") (Num 20) (Num 1);
              TrialType := Str "sham" |}).
  left. reflexivity.
Defined.

End EventFacts.

(** ** The sham pages *)

Section ShamFacts.
Import Frame Loader Events.
Local Open Scope string_scope.
Local Open Scope nat_scope.

Lemma Qeq_bool_comm x y : Qeq_bool x y = Qeq_bool y x.
Proof.
  destruct (Qeq_bool x y) eqn:E, (Qeq_bool y x) eqn:E'; try reflexivity.
  - apply Qeq_bool_iff in E. symmetry in E. apply Qeq_bool_iff in E.
    congruence.
  - apply Qeq_bool_iff in E'. symmetry in E'. apply Qeq_bool_iff in E'.
    congruence.
Qed.

Lemma series_eq_comm a b : series_eq a b = series_eq b a.
Proof.
  destruct a, b; simpl; try reflexivity.
  - apply Qeq_bool_comm.
  - apply String.eqb_sym.
Qed.

Lemma same_page_comm a b : same_page a b = same_page b a.
Proof.
  unfold same_page.
  rewrite (series_eq_comm (PageNum (line a))), (series_eq_comm (Text (line a))).
  reflexivity.
Qed.

Lemma same_page_present a b :
  same_page a b = true -> PageNum (line a) <> NaN /\ Text (line a) <> NaN.
Proof.
  unfold same_page. intros H. apply andb_true_iff in H. destruct H as [H1 H2].
  split; intros E; rewrite E in *; discriminate.
Qed.

Lemma map_VAL_sham v :
  map_VAL v = Str "sham" <-> exists q, v = Num q /\ (q == 20)%Q.
Proof.
  split.
  - intros H. apply map_VAL_reading_sham in H.
    destruct H as (q & Hv & [[H _]|[_ H]]); [discriminate | eauto].
  - intros (q & -> & Hq). simpl.
    destruct (Qeq_bool q 7) eqn:E7.
    + apply Qeq_bool_iff in E7. rewrite Hq in E7. discriminate E7.
    + apply Qeq_bool_iff in Hq. rewrite Hq. reflexivity.
Qed.

(** The pages [load_sham] concatenates, one table for each sham event. *)
Lemma load_sham_pages read_csv data_path subject events :
  load_events read_csv data_path subject "sham" = Ok events ->
  load_sham read_csv data_path subject
  = (sham_events <-
       concat_frames
         (map (fun a => filter (fun r => same_page (snd r) a) events)
              (rows events)) ;;
     Ok (reset_index sham_events))%result.
Proof.
  intros H. unfold load_sham. rewrite H. cbn [bind]. cbv zeta.
  f_equal. f_equal.
  assert (Hc : combine (map (fun r => PageNum (line r)) (rows events))
                       (map (fun r => Text (line r)) (rows events))
               = map (fun r => (PageNum (line r), Text (line r)))
                     (rows events)).
  { induction (rows events) as [|r l IH]; simpl; [reflexivity|].
    rewrite IH. reflexivity. }
  rewrite Hc, map_map. apply map_ext. intros a. cbn [fst snd].
  rewrite (select_mask_and
             (fun r => series_eq (PageNum (line r)) (PageNum (line a)))
             (fun r => series_eq (Text (line r)) (Text (line a)))).
  reflexivity.
Qed.

Lemma concat_frames_ok {A} (frames : list (frame A)) :
  frames <> [] -> concat_frames frames = Ok (List.concat frames).
Proof. destruct frames; [congruence | reflexivity]. Qed.

Lemma kept_sham_line c l v :
  kept c "sham" {| line := set_Text l v; TrialType := map_VAL (VAL l) |} = true
  <-> (exists q, VAL l = Num q /\ (q == 20)%Q) /\
      (has_eye_sample c = true -> eye_sample l <> NaN).
Proof.
  unfold kept. cbn [TrialType line set_Text eye_sample].
  rewrite andb_true_iff, series_eq_Str, map_VAL_sham.
  destruct (has_eye_sample c); cbn [negb orb].
  - destruct (eye_sample l); simpl; split.
    + intros [H _]. split; [exact H | discriminate].
    + tauto.
    + intros [H _]. split; [exact H | discriminate].
    + tauto.
    + intros [_ H]. discriminate.
    + intros [_ H]. exfalso. apply H; reflexivity.
  - split; [intros [H _]; split; [exact H | discriminate] | tauto].
Qed.

(** X22: when [load_sham] returns.  The exception of the reader ends the
    call; on a file that is read it returns exactly when some line has
    the sham code 20 in [VAL] (and an eye sample, when the file has that
    column), and it raises the [ValueError] of a concatenation of nothing
    otherwise. *)
Theorem load_sham_returns read_csv data_path subject :
  (forall e,
     read_csv (events_path data_path subject) = Raise e ->
     load_sham read_csv data_path subject = Raise e) /\
  (forall c,
     read_csv (events_path data_path subject) = Ok c ->
     (is_ok (load_sham read_csv data_path subject) = true <->
      exists l q,
        In l (lines c) /\ VAL l = Num q /\ (q == 20)%Q /\
        (has_eye_sample c = true -> eye_sample l <> NaN)) /\
     (is_ok (load_sham read_csv data_path subject) = false ->
      load_sham read_csv data_path subject = Raise ValueError_no_objects)).
Proof.
  split.
  - intros e H. unfold load_sham.
    rewrite (load_events_raises _ _ _ "sham" H). reflexivity.
  - intros c Hc.
    pose proof (load_events_ok _ _ _ "sham" Hc) as Hev.
    rewrite (load_sham_pages _ _ _ Hev). rewrite rows_of_rows.
    destruct (filter (kept c "sham") (tagged_lines c)) as [|r rest] eqn:E.
    + simpl. split; [|reflexivity].
      split; [discriminate|].
      intros (l & q & Hl & Hv & Hq & He). exfalso.
      apply In_nth_error in Hl. destruct Hl as (i & Hi).
      pose proof (tagged_lines_nth c i) as Ht. rewrite Hi in Ht. simpl in Ht.
      apply nth_error_In in Ht.
      assert (Hin : In {| line := set_Text l
                            (first_valid (map Text (skipn i (lines c))));
                          TrialType := map_VAL (VAL l) |}
                       (filter (kept c "sham") (tagged_lines c))).
      { apply filter_In. split; [exact Ht|].
        apply kept_sham_line. split; [eauto | exact He]. }
      rewrite E in Hin. contradiction.
    + rewrite concat_frames_ok by discriminate. cbn [bind is_ok].
      split; [|discriminate]. split; [|reflexivity]. intros _.
      assert (Hin : In r (filter (kept c "sham") (tagged_lines c)))
        by (rewrite E; left; reflexivity).
      apply filter_In in Hin. destruct Hin as [Hin Hk].
      apply In_nth_error in Hin. destruct Hin as (i & Hi).
      rewrite tagged_lines_nth in Hi.
      destruct (nth_error (lines c) i) as [l|] eqn:El; [|discriminate].
      simpl in Hi. inversion Hi; subst r; clear Hi.
      apply kept_sham_line in Hk. destruct Hk as [(q & Hv & Hq) He].
      exists l, q. split; [exact (nth_error_In _ _ El)|]. auto.
Qed.

Lemma load_sham_returns_witness :
  load_sham one_subject "data" "s02" = Raise ReadError.
Proof.
  apply (proj1 (load_sham_returns one_subject "data" "s02") ReadError).
  reflexivity.
Defined.

(** *** Pages that differ *)

Lemma filter_unique {A} (m : A -> bool) (pre suf : frame A) x :
  Forall (fun p => m (snd p) = false) pre ->
  m (snd x) = true ->
  Forall (fun s => m (snd s) = false) suf ->
  filter (fun r => m (snd r)) (pre ++ x :: suf)%list = [x].
Proof.
  intros Hpre Hx Hsuf.
  assert (Hnone : forall l : frame A,
            Forall (fun p => m (snd p) = false) l ->
            filter (fun r => m (snd r)) l = []).
  { induction 1 as [|p l Hp _ IH]; simpl; [reflexivity|].
    rewrite Hp. exact IH. }
  rewrite filter_app. cbn [filter]. rewrite Hx.
  rewrite (Hnone pre Hpre), (Hnone suf Hsuf). reflexivity.
Qed.

Lemma ordered_pairs_split {A} (rel : A -> A -> Prop) (pre : list A) x suf :
  ForallOrdPairs rel (pre ++ x :: suf)%list ->
  Forall (fun p => rel p x) pre /\ Forall (rel x) suf.
Proof.
  induction pre as [|p pre IH]; simpl; intros H;
    inversion H as [|? ? Hhd Htl]; subst.
  - split; [constructor | exact Hhd].
  - destruct (IH Htl) as [H1 H2]. split; [|exact H2].
    constructor; [|exact H1].
    rewrite Forall_forall in Hhd. apply Hhd. apply in_or_app. right. left.
    reflexivity.
Qed.

Lemma concat_distinct_pages (suf : frame event) : forall pre,
  Forall (fun a => same_page a a = true) (rows (pre ++ suf)%list) ->
  ForallOrdPairs (fun a b => same_page a b = false) (rows (pre ++ suf)%list) ->
  List.concat (map (fun a => filter (fun r => same_page (snd r) a)
                                    (pre ++ suf)%list)
                   (rows suf))
  = suf.
Proof.
  induction suf as [|x suf IH]; intros pre Hrefl Hdiff; [reflexivity|].
  cbn [rows map List.concat].
  assert (Hone : filter (fun r => same_page (snd r) (snd x))
                        (pre ++ x :: suf)%list = [x]).
  { unfold rows in Hrefl, Hdiff. rewrite map_app in Hrefl, Hdiff.
    cbn [map] in Hrefl, Hdiff.
    destruct (@ordered_pairs_split _ _ _ _ _ Hdiff) as [Hpre Hsuf].
    apply (filter_unique (fun a => same_page a (snd x))).
    - rewrite Forall_map in Hpre. exact Hpre.
    - apply Forall_app in Hrefl. destruct Hrefl as [_ Hrefl].
      inversion Hrefl; assumption.
    - rewrite Forall_map in Hsuf. apply Forall_forall.
      rewrite Forall_forall in Hsuf. intros s Hs.
      rewrite same_page_comm. apply Hsuf. exact Hs. }
  rewrite Hone. cbn [app]. f_equal.
  specialize (IH (pre ++ [x])%list).
  rewrite <- app_assoc in IH. cbn [app] in IH.
  apply IH; assumption.
Qed.

(** X23: sham events of different pages.  When every sham event has its
    page and its text, and no two are of the same page of the same text,
    [load_sham] returns the sham events as [load_events] gives them. *)
Theorem load_sham_distinct read_csv data_path subject events :
  load_events read_csv data_path subject "sham" = Ok events ->
  events <> [] ->
  Forall (fun a => same_page a a = true) (rows events) ->
  ForallOrdPairs (fun a b => same_page a b = false) (rows events) ->
  load_sham read_csv data_path subject = Ok events.
Proof.
  intros Hev Hne Hrefl Hdiff.
  rewrite (load_sham_pages _ _ _ Hev).
  rewrite concat_frames_ok
    by (destruct events; [congruence | discriminate]).
  cbn [bind]. f_equal.
  pose proof (concat_distinct_pages events [] Hrefl Hdiff) as Hcat.
  cbn [app] in Hcat. rewrite Hcat.
  apply reset_index_range_indexed.
  destruct (read_csv (events_path data_path subject)) as [c|e] eqn:Hc.
  - rewrite (load_events_ok _ _ _ "sham" Hc) in Hev.
    inversion Hev. apply of_rows_range_indexed.
  - rewrite (load_events_raises _ _ _ "sham" Hc) in Hev. discriminate.
Qed.

Lemma load_sham_distinct_witness :
  load_sham one_subject "data" "s01"
  = Ok (of_rows [ {| line := line_of (Str "bias") (Num 20) (Num 1);
                     TrialType := Str "sham" |};
                  {| line := line_of (Str "validity") (Num 20) (Num 2);
                     TrialType := Str "sham" |} ]).
Proof.
  apply load_sham_distinct.
  - reflexivity.
  - discriminate.
  - repeat constructor.
  - repeat constructor.
Defined.

(** *** Pages that repeat *)

Lemma length_concat_copies {A B} (t : list A) (l : list B) :
  length (List.concat (map (fun _ => t) l)) = length l * length t.
Proof.
  induction l as [|b l IH]; simpl; [reflexivity|].
  rewrite length_app, IH. reflexivity.
Qed.

Lemma filter_all {A} (f : A -> bool) (l : list A) :
  (forall x, In x l -> f x = true) -> filter f l = l.
Proof.
  induction l as [|x l IH]; intros H; simpl; [reflexivity|].
  rewrite (H x (or_introl eq_refl)). f_equal. apply IH.
  intros y Hy. apply H. right. exact Hy.
Qed.

(** X24: what [load_sham] returns in general.  The table is under the
    default index; each of its rows is a sham event that has its page and
    its text; every sham event that has both is in it; and when all sham
    events are of one page of one text, each comes back once for every
    event, so that [n] events give [n * n] rows. *)
Theorem load_sham_repeats read_csv data_path subject events out :
  load_events read_csv data_path subject "sham" = Ok events ->
  load_sham read_csv data_path subject = Ok out ->
  range_indexed out /\
  (forall r, In r (rows out) ->
     In r (rows events) /\
     PageNum (line r) <> NaN /\ Text (line r) <> NaN) /\
  (forall a, In a (rows events) -> same_page a a = true -> In a (rows out)) /\
  ((forall a b, In a (rows events) -> In b (rows events) ->
                same_page a b = true) ->
   length out = length events * length events).
Proof.
  intros Hev Hout. rewrite (load_sham_pages _ _ _ Hev) in Hout.
  rename events into t.
  assert (Hne : map (fun a => filter (fun r => same_page (snd r) a) t)
                    (rows t) <> []).
  { intros E. rewrite E in Hout. discriminate Hout. }
  rewrite (concat_frames_ok Hne) in Hout. cbn [bind] in Hout.
  assert (Hout' : out = reset_index
                          (List.concat
                             (map (fun a => filter
                                              (fun r => same_page (snd r) a) t)
                                  (rows t)))) by congruence.
  subst out. clear Hout Hne.
  unfold reset_index. rewrite rows_of_rows, length_of_rows.
  split; [apply of_rows_range_indexed|].
  assert (Hmem : forall r,
            In r (rows (List.concat
                          (map (fun a => filter (fun r => same_page (snd r) a) t)
                               (rows t)))) <->
            exists a, In a (rows t) /\ In r (rows t) /\ same_page r a = true).
  { intros r. unfold rows at 1. rewrite in_map_iff. split.
    - intros ([k r'] & <- & Hin). apply in_concat in Hin.
      destruct Hin as (f & Hf & Hin). apply in_map_iff in Hf.
      destruct Hf as (a & <- & Ha). apply filter_In in Hin.
      destruct Hin as [Hin Hsame]. exists a. split; [exact Ha|].
      split; [|exact Hsame]. unfold rows. apply in_map_iff.
      exists (k, r'). auto.
    - intros (a & Ha & Hr & Hsame). unfold rows in Hr.
      apply in_map_iff in Hr. destruct Hr as ([k r'] & <- & Hin).
      exists (k, r'). split; [reflexivity|]. apply in_concat.
      exists (filter (fun r => same_page (snd r) a) t). split.
      + apply in_map_iff. exists a. auto.
      + apply filter_In. auto. }
  split; [|split].
  - intros r Hr. apply Hmem in Hr. destruct Hr as (a & _ & Hr & Hsame).
    split; [exact Hr | exact (same_page_present _ _ Hsame)].
  - intros a Ha Hsame. apply Hmem. exists a. auto.
  - intros Hall.
    assert (Heq : map (fun a => filter (fun r => same_page (snd r) a) t)
                      (rows t)
                  = map (fun _ => t) (rows t)).
    { apply map_ext_in. intros a Ha. apply filter_all. intros [k r] Hin.
      apply Hall; [|exact Ha]. unfold rows. apply in_map_iff.
      exists (k, r). auto. }
    rewrite Heq.
    transitivity (length (List.concat (map (fun _ : event => t) (rows t)))).
    { unfold rows. apply length_map. }
    etransitivity; [exact (length_concat_copies t (rows t))|].
    unfold rows. rewrite length_map. reflexivity.
Qed.

Lemma load_sham_repeats_witness :
  range_indexed
    (of_rows [ {| line := line_of (Str "bias") (Num 20) (Num 1);
                  TrialType := Str "sham" |};
               {| line := line_of (Str "validity") (Num 20) (Num 2);
                  TrialType := Str "sham" |} ]).
Proof.
  refine (proj1 (@load_sham_repeats one_subject "data" "s01" _ _ _ _)).
  - reflexivity.
  - reflexivity.
Defined.

End ShamFacts.

(** ** Splitting the sample report by participant *)

Section SplitFacts.
Import Classifier Wrangling.
Local Open Scope string_scope.
Local Open Scope nat_scope.

























End SplitFacts.

(** ** Downsampling and joining the participant files *)

Section JoinFacts.
Import Wrangling.
Local Open Scope string_scope.
Local Open Scope nat_scope.

(** X28: [downsample] never returns a table.  The step [1000 /
    downsampleHZ] comes from a true division, so it is a float also when
    the rate divides 1000, and a positional slice refuses a float step:
    the call raises [TypeError] for every table at every rate other than
    zero, the rate 100 of the class included, and [ZeroDivisionError] at
    the rate zero. *)
Theorem downsample_raises :
  (forall (A : Type) (hz : Z) (df : list A),
     downsample_at hz df
     = Fails (if (hz =? 0)%Z then ZeroDivisionError
              else TypeError_slice_step)) /\
  (forall (A : Type) (df : list A), downsample df = Fails TypeError_slice_step).
Proof.
  split.
  - intros A hz df. unfold downsample_at, true_div.
    destruct (hz =? 0)%Z; reflexivity.
  - intros A df. reflexivity.
Qed.

(** *** [concat_pids] *)

Lemma getitem_cols_has df cs :
  has_columns cs df = true ->
  getitem_cols df cs = Ok (map (fun c => (c, values_of c df)) cs).
Proof.
  unfold getitem_cols, has_columns, values_of.
  induction cs as [|c cs IH]; intros H; simpl in *; [reflexivity|].
  apply andb_true_iff in H. destruct H as [Hc Hcs].
  destruct (lookup c df); [|discriminate]. simpl.
  rewrite (IH Hcs). reflexivity.
Qed.

Lemma getitem_cols_lacks df cs :
  has_columns cs df = false -> getitem_cols df cs = Raise KeyError.
Proof.
  unfold getitem_cols, has_columns.
  induction cs as [|c cs IH]; intros H; simpl in *; [discriminate|].
  destruct (lookup c df); simpl in *; [|reflexivity].
  rewrite (IH H). reflexivity.
Qed.

Lemma lookup_map (g : string -> list cell) cs c :
  In c cs -> lookup c (map (fun x => (x, g x)) cs) = Some (g c).
Proof.
  induction cs as [|x cs IH]; intros H; [contradiction|].
  cbn [map lookup]. destruct (x =? c)%string eqn:E.
  - apply String.eqb_eq in E. subst. reflexivity.
  - destruct H as [H|H]; [|exact (IH H)].
    subst. rewrite String.eqb_refl in E. discriminate.
Qed.

Lemma concat_selected cs (dfs : list table) :
  dfs <> [] ->
  concat (map (fun df => map (fun c => (c, values_of c df)) cs) dfs)
  = Ok (map (fun c => (c, List.concat (map (values_of c) dfs))) cs).
Proof.
  destruct dfs as [|df0 dfs]; [congruence|]. intros _.
  remember (df0 :: dfs) as all eqn:Hall.
  set (sel := fun df : table => map (fun c => (c, values_of c df)) cs).
  assert (Hm : map sel all = sel df0 :: map sel dfs)
    by (subst all; reflexivity).
  rewrite Hm. unfold concat. rewrite <- Hm. f_equal.
  unfold sel at 2. rewrite map_map. apply map_ext_in. intros c Hc.
  cbn [fst]. f_equal. f_equal. rewrite map_map. apply map_ext. intros df.
  unfold sel.
  rewrite (lookup_map (fun c0 => values_of c0 df) cs c Hc). reflexivity.
Qed.

Lemma written_table cs (dfs : list table) :
  dfs <> [] ->
  exists final_df,
    concat (map (fun df => map (fun c => (c, values_of c df)) cs) dfs)
    = Ok final_df /\
    map fst final_df = cs /\
    forall c, In c cs ->
      lookup c final_df = Some (List.concat (map (values_of c) dfs)).
Proof.
  intros Hne. eexists. split; [apply concat_selected; exact Hne|].
  split.
  - rewrite map_map. cbn [fst]. apply map_id.
  - intros c Hc.
    exact (lookup_map (fun x => List.concat (map (values_of x) dfs)) cs c Hc).
Qed.

Lemma match_nonempty {A B} (l : list A) (x y : B) :
  l <> [] -> match l with [] => x | _ :: _ => y end = y.
Proof. destruct l; [congruence | reflexivity]. Qed.

(** What the loop gathers: the usable tables cut to the columns, and a
    message for each file given up. *)
Lemma gather_usable read_csv entries :
  fst (gather read_csv entries)
  = map (fun df => map (fun c => (c, values_of c df)) cols)
        (usable read_csv entries) /\
  map file_of (snd (gather read_csv entries)) = unusable read_csv entries /\
  forallb is_error (snd (gather read_csv entries)) = true.
Proof.
  induction entries as [|entry rest IH]; [repeat split|].
  cbn [gather usable unusable flat_map].
  destruct (gather read_csv rest) as [frames log].
  cbn [fst snd] in IH. destruct IH as (IH1 & IH2 & IH3).
  fold (usable read_csv rest). fold (unusable read_csv rest).
  destruct (isfile entry && Loader.ends_with ".csv" (file_name entry));
    [|cbn [app fst snd]; auto].
  destruct (read_csv (file_name entry)) as [df|e]; cbn [bind].
  - destruct (has_columns cols df) eqn:Hc.
    + rewrite (getitem_cols_has _ _ Hc). cbn [fst snd app map].
      rewrite IH1. auto.
    + rewrite (getitem_cols_lacks _ _ Hc).
      cbn [fst snd app map forallb file_of is_error].
      rewrite IH2, IH3. auto.
  - cbn [fst snd app map forallb file_of is_error]. rewrite IH2, IH3. auto.
Qed.

(** X29: what [concat_pids] writes, and what can end it.  An exception of
    [os.listdir] ends the call before anything is printed.  Otherwise a
    file named [.csv] that cannot be read, or lacks one of the fifteen
    columns, is given up with a message that names it and does not stop
    the others; entries that are not files or not named [.csv] are passed
    over.  When no table is left, nothing is written.  Otherwise the
    table handed to [to_csv] has the fifteen columns in their order, and
    under each of them the values of the usable files, one file after the
    other in the order of the listing; an exception of [to_csv] ends the
    call.  No other exception leaves the function. *)
Theorem concat_pids_skips listdir read_csv to_csv output_file :
  (forall e,
     listdir = Raise e ->
     concat_pids listdir read_csv to_csv output_file = ([], Raise e)) /\
  (forall entries,
     listdir = Ok entries ->
     exists errors,
       forallb is_error errors = true /\
       map file_of errors = unusable read_csv entries /\
       (usable read_csv entries = [] ->
        concat_pids listdir read_csv to_csv output_file
        = ((errors ++ [No_files])%list, Ok None)) /\
       (usable read_csv entries <> [] ->
        exists final_df,
          map fst final_df = cols /\
          (forall c, In c cols ->
             lookup c final_df
             = Some (List.concat
                       (map (values_of c) (usable read_csv entries)))) /\
          concat_pids listdir read_csv to_csv output_file
          = match to_csv output_file final_df with
            | Ok _ => ((errors ++ [Saved_as output_file])%list,
                       Ok (Some final_df))
            | Raise e => (errors, Raise e)
            end)) /\
  (forall e,
     snd (concat_pids listdir read_csv to_csv output_file) = Raise e ->
     listdir = Raise e \/
     exists final_df, to_csv output_file final_df = Raise e).
Proof.
  assert (Hrun : forall entries,
            listdir = Ok entries ->
            exists errors,
              forallb is_error errors = true /\
              map file_of errors = unusable read_csv entries /\
              (usable read_csv entries = [] ->
               concat_pids listdir read_csv to_csv output_file
               = ((errors ++ [No_files])%list, Ok None)) /\
              (usable read_csv entries <> [] ->
               exists final_df,
                 map fst final_df = cols /\
                 (forall c, In c cols ->
                    lookup c final_df
                    = Some (List.concat
                              (map (values_of c) (usable read_csv entries)))) /\
                 concat_pids listdir read_csv to_csv output_file
                 = match to_csv output_file final_df with
                   | Ok _ => ((errors ++ [Saved_as output_file])%list,
                              Ok (Some final_df))
                   | Raise e => (errors, Raise e)
                   end)).
  { intros entries Hl. unfold concat_pids. rewrite Hl.
    destruct (gather_usable read_csv entries) as (Hf & Hn & He).
    destruct (gather read_csv entries) as [frames log]. cbn [fst snd] in *.
    subst frames. exists log. split; [exact He|]. split; [exact Hn|]. split.
    - intros Hu. rewrite Hu. reflexivity.
    - intros Hne.
      destruct (written_table cols Hne) as (final & Hcat & Hfst & Hlk).
      exists final. split; [exact Hfst|]. split; [exact Hlk|].
      destruct (map (fun df => map (fun c => (c, values_of c df)) cols)
                    (usable read_csv entries)) as [|first others] eqn:Em.
      { apply map_eq_nil in Em. contradiction. }
      rewrite Hcat. destruct (to_csv output_file final); reflexivity. }
  split; [|split].
  - intros e Hl. unfold concat_pids. rewrite Hl. reflexivity.
  - exact Hrun.
  - intros e Hr. destruct listdir as [entries|e0] eqn:Hl.
    + right. destruct (Hrun entries eq_refl) as (errors & _ & _ & Hnone & Hsome).
      destruct (usable read_csv entries) as [|df0 dfs] eqn:Hu.
      * rewrite (Hnone eq_refl) in Hr. discriminate Hr.
      * destruct Hsome as (final & _ & _ & Hc); [discriminate|].
        rewrite Hc in Hr. exists final.
        destruct (to_csv output_file final) as [u|e1];
          [discriminate Hr | cbn [snd] in Hr; inversion Hr; reflexivity].
    + left. unfold concat_pids in Hr. cbn [snd] in Hr.
      inversion Hr. reflexivity.
Qed.

Lemma concat_pids_skips_witness :
  exists errors final_df,
    map file_of errors = ["narrow.csv"; "broken.csv"] /\
    map fst final_df = cols /\
    lookup "TIMESTAMP" final_df = Some [Num 1; Num 2] /\
    concat_pids (Ok mixed_folder) read_mixed (fun _ _ => Ok tt) "out.csv"
    = ((errors ++ [Saved_as "out.csv"])%list, Ok (Some final_df)).
Proof.
  destruct (proj1 (proj2 (concat_pids_skips (Ok mixed_folder) read_mixed
                                            (fun _ _ => Ok tt) "out.csv"))
                  mixed_folder eq_refl)
    as (errors & _ & Hnames & _ & Hsome).
  destruct Hsome as (final_df & Hfst & Hlookup & Hrun);
    [vm_compute; discriminate|].
  exists errors, final_df.
  split; [exact Hnames|]. split; [exact Hfst|]. split; [|exact Hrun].
  apply (Hlookup "TIMESTAMP"). vm_compute. tauto.
Defined.

End JoinFacts.
